(** * HydroSAR: the DEM mosaic preparation cells of the full-frame loader notebook

    A shallow embedding of the notebook cells "Writing Support Functions",
    "Identifying Predominant UTM zone" and "Reproject and Mosaic DEMs",
    and the properties of the predominant-UTM selection, the reprojection
    loop and the merge/cleanup loop. *)

From Stdlib Require Import Ascii.
From stdpp Require Import base option list sorting strings gmap fin_maps.

Set Warnings "-clear-no-such-hyp".

(** ** Python outcomes *)

(** The exception classes that occur.  The first six are the built-in ones
    the cells can raise; the last five are the error kinds named by the design
    document, none of which is raised by any statement of the notebook. *)
Inductive exn : Type :=
  | ValueError
  | IndexError
  | TypeError
  | AttributeError
  | NameError
  | FileNotFoundError
  | EmptyInputError
  | MetadataError (tile : string)
  | ReprojectionError (tile cause : string)
  | MergeError (cause : string)
  | FilesystemError (path : string).

(** The outcome of evaluating a Python expression. *)
Inductive result (A : Type) : Type :=
  | Ok (a : A)
  | Raise (e : exn).
Arguments Ok {A} a.
Arguments Raise {A} e.

Definition rbind {A B} (r : result A) (k : A → result B) : result B :=
  match r with
  | Ok a => k a
  | Raise e => Raise e
  end.

(** ** The numpy operations of the selection cell *)

Module Np.

(** Number of entries of [l] equal to [x]. *)
Definition count (x : string) (l : list string) : nat :=
  length (filter (x =.) l).

(** Lengths of the runs of equal adjacent entries, each with its value:
    what [np.unique] computes from the sorted array with its
    [ar[1:] != ar[:-1]] mask and the differences of the mask's indices. *)
Fixpoint run_lengths (ar : list string) : list (string * nat) :=
  match ar with
  | [] => []
  | x :: ar' =>
      match run_lengths ar' with
      | (y, n) :: rl => if decide (x = y) then (y, S n) :: rl
                        else (x, 1) :: (y, n) :: rl
      | [] => [(x, 1)]
      end
  end.

(** [np.unique(ar, return_counts=True)]: the array is sorted (strings
    compare by code point, left to right), then collapsed to its distinct
    values and their multiplicities. *)
Definition unique (ar : list string) : list string * list nat :=
  let rl := run_lengths (merge_sort String.le ar) in (rl.*1, rl.*2).

(** [np.max]: a zero-size array has no maximum. *)
Definition max (counts : list nat) : result nat :=
  match counts with
  | [] => Raise ValueError
  | c :: cs => Ok (foldr Nat.max c cs)
  end.

(** [np.where(counts == m)]: the indices, ascending, that hold [m]. *)
Fixpoint where_eq_from (i : nat) (counts : list nat) (m : nat) : list nat :=
  match counts with
  | [] => []
  | c :: cs => if decide (c = m) then i :: where_eq_from (S i) cs m
               else where_eq_from (S i) cs m
  end.
Definition where_eq (counts : list nat) (m : nat) : list nat :=
  where_eq_from 0 counts m.

(** [arr[a]] for an index array [a]. *)
Fixpoint take (arr : list string) (a : list nat) : result (list string) :=
  match a with
  | [] => Ok []
  | i :: a' =>
      match arr !! i with
      | Some x => rbind (take arr a') (λ xs, Ok (x :: xs))
      | None => Raise IndexError
      end
  end.

(** [arr[0]]. *)
Definition item0 (arr : list string) : result string :=
  match arr with
  | x :: _ => Ok x
  | [] => Raise IndexError
  end.

End Np.

(** ** Identifying the predominant UTM zone *)

(** The three statements
<<
    utm_unique, counts = np.unique(utm_zones, return_counts=True)
    a = np.where(counts == np.max(counts))
    predominant_utm = utm_unique[a][0]
>>
    as a function of [utm_zones]. *)
Definition predominant_utm (utm_zones : list string) : result string :=
  let '(utm_unique, counts) := Np.unique utm_zones in
  rbind (Np.max counts) (λ m,
  let a := Np.where_eq counts m in
  rbind (Np.take utm_unique a) Np.item0).


(** ** Python string methods *)

Module Py.

(** [str.isspace] on the ASCII range: tab to carriage return, the four
    separators 28 to 31, and the blank. *)
Definition isspace (c : ascii) : bool :=
  let n := nat_of_ascii c in
  (Nat.leb 9 n && Nat.leb n 13) || (Nat.leb 28 n && Nat.leb n 32).

Fixpoint lstrip (s : string) : string :=
  match s with
  | String c s' => if isspace c then lstrip s' else s
  | "" => ""
  end.

Definition rstrip (s : string) : string :=
  String.rev (lstrip (String.rev s)).

(** [s.strip()] *)
Definition strip (s : string) : string := rstrip (lstrip s).

(** [c in s] for a character [c]. *)
Fixpoint contains (c : ascii) (s : string) : bool :=
  match s with
  | "" => false
  | String d s' => bool_decide (d = c) || contains c s'
  end.

(** [s.split(sep)] for a one-character separator: never empty, and an
    empty piece for each separator at an end or next to another one. *)
Fixpoint split (sep : ascii) (s : string) : list string :=
  match s with
  | "" => [""]
  | String c s' =>
      if decide (c = sep) then "" :: split sep s'
      else match split sep s' with
           | piece :: pieces => String c piece :: pieces
           | [] => [String c ""]
           end
  end.

(** [seq[i]] for [0 <= i]. *)
Definition index {A} (seq : list A) (i : nat) : result A :=
  match seq !! i with
  | Some x => Ok x
  | None => Raise IndexError
  end.

(** [seq[-1]] *)
Definition index_last {A} (seq : list A) : result A :=
  match last seq with
  | Some x => Ok x
  | None => Raise IndexError
  end.

(** [a, b = seq]: unpacking into exactly two names. *)
Definition unpack2 {A} (seq : list A) : result (A * A) :=
  match seq with
  | [a; b] => Ok (a, b)
  | _ => Raise ValueError
  end.

(** [[i for i, j in enumerate(seq) if j != x]], counting from [i]. *)
Fixpoint indices_ne_from (i : nat) (seq : list string) (x : string)
  : list nat :=
  match seq with
  | [] => []
  | j :: seq' => if decide (j ≠ x) then i :: indices_ne_from (S i) seq' x
                 else indices_ne_from (S i) seq' x
  end.

End Py.

(** ** The [glob] module *)

Module Glob.

(** [fnmatch] of one path component against a pattern whose only wildcard
    is the star, the only one in the notebook's patterns. *)
Fixpoint fnmatch (pat name : string) : bool :=
  match pat with
  | "" => bool_decide (name = "")
  | String c pat' =>
      if decide (c = "*"%char) then
        (fix star (n : string) : bool :=
           fnmatch pat' n
           || match n with
              | "" => false
              | String _ n' => star n'
              end) name
      else
        match name with
        | String d name' => bool_decide (c = d) && fnmatch pat' name'
        | "" => false
        end
  end.

(** A name with a leading dot is only matched by a pattern with one. *)
Definition hidden (name : string) : bool :=
  match name with
  | String "." _ => true
  | _ => false
  end.

Definition component_match (pat name : string) : bool :=
  fnmatch pat name && (negb (hidden name) || hidden pat).

Fixpoint components_match (pats names : list string) : bool :=
  match pats, names with
  | [], [] => true
  | pat :: pats', name :: names' =>
      component_match pat name && components_match pats' names'
  | _, _ => false
  end.

(** Whether [glob.glob(pathname)] reports the existing path [path]:
    component by component, a star never crossing a slash. *)
Definition matches (pathname path : string) : bool :=
  components_match (Py.split "/" pathname) (Py.split "/" path).

End Glob.

(** ** Raster files and the external tools *)

(** What the metadata loop keeps of a raster: the authority name ([typ]) and
    the code ([zone]) of the last [ID[...]] node of the WKT that [gdal.Info]
    reports for it. *)
Record raster : Type := Raster { typ : string; zone : string }.

Global Instance raster_eq_dec : EqDecision raster.
Proof. solve_decision. Defined.

(** The tool invocations and deletions the cells issue.  A [!{cmd}] line hands
    its command line to the shell; what is recorded is the tool and the
    arguments it receives, the interpolated names being single shell words. *)
Inductive call : Type :=
  | Gdalwarp (src dst : string) (s_srs t_srs : string * string)
  | Rm (path : string)
  | GdalMerge (output : string) (inputs : list string)
  | OsRemove (path : string).

Global Instance call_eq_dec : EqDecision call.
Proof. solve_decision. Defined.

(** The working directory, each file under its relative path, and the
    invocations issued so far, oldest first. *)
Record world : Type := World {
  files : gmap string raster;
  calls : list call
}.

(** The collaborators the notebook does not control: the order in which the
    operating system enumerates the existing paths, and whether an invocation
    of [gdalwarp] or [gdal_merge.py] succeeds. *)
Class Tools : Type := {
  listing : gmap string raster → list string;
  listing_NoDup : ∀ fs, NoDup (listing fs);
  listing_elem : ∀ fs p, p ∈ listing fs ↔ is_Some (fs !! p);
  gdalwarp_ok :
    gmap string raster → string → string → string * string → string * string → bool;
  gdal_merge_ok : gmap string raster → string → list string → bool
}.

(** ** Cells as computations on the world *)

(** A statement sequence either completes or raises; the effects it had up to
    that point stay. *)
Definition cell (A : Type) : Type := world → result A * world.

Global Instance cell_ret : MRet cell := λ A a w, (Ok a, w).
Global Instance cell_bind : MBind cell := λ A B k m w,
  match m w with
  | (Ok a, w') => k a w'
  | (Raise e, w') => (Raise e, w')
  end.

(** An expression without effects, evaluated inside a cell. *)
Definition eval {A} (r : result A) : cell A := λ w, (r, w).

(** [for x in xs: body] *)
Fixpoint for_ {A} (xs : list A) (body : A → cell ()) : cell () :=
  match xs with
  | [] => mret ()
  | x :: xs' => body x;; for_ xs' body
  end.

(** [[f(x) for x in xs]], left to right. *)
Fixpoint for_collect {A B} (xs : list A) (f : A → cell B) : cell (list B) :=
  match xs with
  | [] => mret []
  | x :: xs' => y ← f x; ys ← for_collect xs' f; mret (y :: ys)
  end.

Section Notebook.

Context `{Tools}.

(** *** The external tools *)

Definition log (c : call) (w : world) : world :=
  World (files w) (calls w ++ [c]).

Definition write (path : string) (r : raster) (w : world) : world :=
  World (<[path := r]> (files w)) (calls w).

Definition unlink (path : string) (w : world) : world :=
  World (delete path (files w)) (calls w).

(** [gdal.Info(path, options=['-json'])] followed by the two [split]
    chains; a path that cannot be opened yields [None], which the
    subscript [['coordinateSystem']] rejects. *)
Definition gdal_Info (path : string) : cell raster := λ w,
  match files w !! path with
  | Some r => (Ok r, w)
  | None => (Raise TypeError, w)
  end.

(** Whether [gdalwarp -overwrite src dst -s_srs s -t_srs t], started on the
    files [fs], succeeds. *)
Definition gdalwarp_succeeds (fs : gmap string raster) (src dst : string)
  (s_srs t_srs : string * string) : bool :=
  bool_decide (is_Some (fs !! src)) && gdalwarp_ok fs src dst s_srs t_srs.

(** [!gdalwarp ...]: on success [dst] holds a raster in the target system;
    on failure nothing is written.  Either way the line completes: the
    exit status is not reported to Python. *)
Definition gdalwarp (src dst : string) (s_srs t_srs : string * string)
  : cell () := λ w,
  let w' := log (Gdalwarp src dst s_srs t_srs) w in
  if gdalwarp_succeeds (files w) src dst s_srs t_srs
  then (Ok (), write dst (Raster t_srs.1 t_srs.2) w')
  else (Ok (), w').

(** [!rm path]: a missing file is reported on the terminal only. *)
Definition rm (path : string) : cell () := λ w,
  (Ok (), unlink path (log (Rm path) w)).

(** The system of the mosaic: that of the first input that can be opened. *)
Definition first_opened (fs : gmap string raster) (inputs : list string)
  : option raster :=
  head (omap (λ p, fs !! p) inputs).

(** Whether [gdal_merge.py -o output inputs...], started on the files
    [fs], succeeds. *)
Definition gdal_merge_succeeds (fs : gmap string raster) (output : string)
  (inputs : list string) : bool :=
  bool_decide (is_Some (first_opened fs inputs))
  && gdal_merge_ok fs output inputs.

(** [!gdal_merge.py ...]: on success [output] holds the mosaic; on failure
    nothing is written.  Either way the line completes. *)
Definition gdal_merge (output : string) (inputs : list string)
  : cell () := λ w,
  let w' := log (GdalMerge output inputs) w in
  if gdal_merge_succeeds (files w) output inputs
  then match first_opened (files w) inputs with
       | Some r => (Ok (), write output r w')
       | None => (Ok (), w')
       end
  else (Ok (), w').

(** [asfn.path_exists(path)] *)
Definition path_exists (path : string) : cell bool := λ w,
  (Ok (bool_decide (is_Some (files w !! path))), w).

(** [os.remove(path)] *)
Definition os_remove (path : string) : cell () := λ w,
  match files w !! path with
  | Some _ => (Ok (), unlink path (log (OsRemove path) w))
  | None => (Raise FileNotFoundError, w)
  end.

(** [glob.glob(pathname)] *)
Definition glob (pathname : string) : cell (list string) := λ w,
  (Ok (filter (λ p, Glob.matches pathname p) (listing (files w))), w).

(** *** Support functions *)

Definition get_DEM_paths (pths : string) : cell (list string) :=
  found ← glob pths;
  mret (foldl (λ DEM_paths pth, DEM_paths ++ [pth]) [] found).

(** [pth.split("/")[-1].split("_")[3].split("T")[0]] *)
Definition date_of (pth : string) : result string :=
  rbind (Py.index_last (Py.split "/" pth)) (λ name,
  rbind (Py.index (Py.split "_" name) 3) (λ stamp,
  Py.index (Py.split "T" stamp) 0)).

(** [get_DEM_dates(paths)].  The loop runs over the notebook-level name
    [tiff_paths], which is bound ([Some]) once the cell that lists the
    polarization rasters has run. *)
Definition get_DEM_dates (tiff_paths : option (list string))
  (paths : list string) : result (list string) :=
  match tiff_paths with
  | None => Raise NameError
  | Some tiff_paths =>
      foldl (λ dates pth,
               rbind dates (λ dates,
               rbind (date_of pth) (λ date, Ok (dates ++ [date]))))
            (Ok []) tiff_paths
  end.

(** *** Cell "Identifying Predominant UTM zone" *)

Definition DEM_pth : string := "DEMs/*.tif*".

(** The paths that [get_DEM_paths(DEM_pth)] reports on the files [fs]. *)
Definition tiles (fs : gmap string raster) : list string :=
  filter (λ p, Glob.matches DEM_pth p) (listing fs).

(** The names the cell leaves bound. *)
Record zones : Type := Zones {
  DEM_paths : list string;
  utm_zones : list string;
  utm_types : list string;
  predominant : string
}.

Definition identify_cell : cell zones :=
  DEM_paths ← get_DEM_paths DEM_pth;
  infos ← for_collect (seq 0 (length DEM_paths)) (λ k,
            pth ← eval (Py.index DEM_paths k); gdal_Info pth);
  let utm_zones := zone <$> infos in
  let utm_types := typ <$> infos in
  predominant_utm ← eval (predominant_utm utm_zones);
  mret (Zones DEM_paths utm_zones utm_types predominant_utm).

(** *** Cell "Reproject and Mosaic DEMs" *)

Definition reproject_indicies (utm_zones : list string)
  (predominant_utm : string) : list nat :=
  Py.indices_ne_from 0 utm_zones predominant_utm.

(** The body of [for k in reproject_indicies]. *)
Definition reproject_body (z : zones) (k : nat) : cell () :=
  pth ← eval (Py.index (DEM_paths z) k);
  let temppath := Py.strip pth in
  '(product_name, DEM_name) ← eval (Py.unpack2 (Py.split "/" temppath));
  utm_type ← eval (Py.index (utm_types z) k);
  utm_zone ← eval (Py.index (utm_zones z) k);
  gdalwarp (product_name +:+ "/" +:+ DEM_name)
           (product_name +:+ "/r" +:+ DEM_name)
           (utm_type, utm_zone) ("EPSG", predominant z);;
  rm (Py.strip pth).

Definition reproject_loop (z : zones) : cell () :=
  for_ (reproject_indicies (utm_zones z) (predominant z)) (reproject_body z).

(** The value of [DEMin[0]]: the empty dictionary it starts as, or a
    string. *)
Inductive DEMin0 : Type :=
  | EmptyDict
  | Str (s : string).

(** The loop that joins the paths, [test] counting the iterations. *)
Definition join_paths (d_paths : list string) : DEMin0 :=
  (foldl (λ '(test, DEMin) pth,
            match test, DEMin with
            | 0, _ => (test + 1, Str pth)
            | _, Str s => (test + 1, Str (s +:+ " " +:+ pth))
            | _, EmptyDict => (test + 1, Str ("{} " +:+ pth))
            end)
         (0, EmptyDict) d_paths).2.

(** [DEMin[0].split(sep)] *)
Definition DEMin0_split (sep : ascii) (d : DEMin0) : result (list string) :=
  match d with
  | Str s => Ok (Py.split sep s)
  | EmptyDict => Raise AttributeError
  end.

(** [f"{DEMin[0]}"] *)
Definition DEMin0_format (d : DEMin0) : string :=
  match d with
  | Str s => s
  | EmptyDict => "{}"
  end.

(** The words the shell makes of a blank-separated argument string. *)
Definition words (s : string) : list string :=
  filter (λ word, word ≠ "") (Py.split " " s).

(** The body of [for pth in DEMin[0].split(' ')]. *)
Definition cleanup_body (pth : string) : cell () :=
  if bool_decide (pth ≠ "") then
    path_exists pth ≫= λ present : bool,
      if present then os_remove pth else mret ()
  else mret ().

(** From "Updating DEM Paths" to the end of the cell; the value is
    [output]. *)
Definition merge_part : cell string :=
  _ ← get_DEM_paths DEM_pth;
  d_paths ← get_DEM_paths DEM_pth;
  let DEMin := join_paths d_paths in
  pieces ← eval (DEMin0_split "/" DEMin);
  product ← eval (Py.index pieces 0);
  let output := product +:+ "/DEM-Mosaic.tif" in
  gdal_merge output (words (DEMin0_format DEMin));;
  pths ← eval (DEMin0_split " " DEMin);
  for_ pths cleanup_body;;
  mret output.

Definition mosaic_cell (z : zones) : cell string :=
  reproject_loop z;; merge_part.

(** Discovery, selection and reprojection: the first cell followed by the
    loop of the second. *)
Definition reproject_pass : cell zones :=
  z ← identify_cell;
  reproject_loop z;;
  mret z.

End Notebook.

(** ** The operations as the design document words them *)

Module Spec.

(** The zone tally: one entry per code, in the order the codes are first
    met, with the number of tiles bearing it. *)
Fixpoint tally_add (code : string) (tally : list (string * nat))
  : list (string * nat) :=
  match tally with
  | [] => [(code, 1)]
  | (c, n) :: tally' =>
      if decide (c = code) then (c, S n) :: tally'
      else (c, n) :: tally_add code tally'
  end.

Definition zone_tally (codes : list string) : list (string * nat) :=
  foldl (λ tally code, tally_add code tally) [] codes.

(** The scan: the maximum count seen and the code that first achieves it. *)
Definition first_max (tally : list (string * nat)) : option (string * nat) :=
  foldl (λ best entry,
           match best with
           | None => Some entry
           | Some (_, m) => if Nat.ltb m entry.2 then Some entry else best
           end)
        None tally.

(** [select_predominant_crs(tiles)], on the codes of the tiles. *)
Definition select_predominant_crs (codes : list string) : result string :=
  match first_max (zone_tally codes) with
  | Some (code, _) => Ok code
  | None => Raise EmptyInputError
  end.


End Spec.

(** ** A concrete environment *)

(** Paths enumerated in the order of the map's own traversal; both tools
    succeed or fail as the two flags say. *)
Definition fixed_tools (warp_ok merge_ok : bool) : Tools := {|
  listing fs := elements (dom fs);
  listing_NoDup fs := NoDup_elements (dom fs);
  listing_elem fs p :=
    iff_trans (elem_of_elements (dom fs) p) (elem_of_dom fs p);
  gdalwarp_ok _ _ _ _ _ := warp_ok;
  gdal_merge_ok _ _ _ := merge_ok
|}.

(** The end-to-end scenario of the design document: [t1.tif] in zone 32644,
    [t2.tif] and [t3.tif] in zone 32645. *)
Definition scenario : gmap string raster :=
  <["DEMs/t1.tif" := Raster "EPSG" "32644"]>
  (<["DEMs/t2.tif" := Raster "EPSG" "32645"]>
  (<["DEMs/t3.tif" := Raster "EPSG" "32645"]> ∅)).



(** ** The two DEM cells, one after the other *)


(** ** Collecting the DEMs *)

(** [!cp rtc_products/*/*dem.tif DEMs/]: the pattern that the name of a
    copied file matches, and the path the copy gets. *)
Definition dem_name_pattern : string := "*dem.tif".

Definition collected (name : string) : string := "DEMs/" +:+ name.

(** ** The tiles as the reprojection loop reads them *)


(** * Properties *)

(** ** Counting, runs and [np.unique] *)

Section NpFacts.

Implicit Types (x y u v : string) (l ar : list string)
  (rl : list (string * nat)).

Lemma count_nil x : Np.count x [] = 0.
Proof. done. Qed.

Lemma count_cons x y l :
  Np.count x (y :: l) =
    if decide (x = y) then S (Np.count x l) else Np.count x l.
Proof.
  unfold Np.count. rewrite filter_cons.
  destruct (decide (x = y)); done.
Qed.

Lemma count_pos x l : 0 < Np.count x l ↔ x ∈ l.
Proof.
  induction l as [|y l IH]; [rewrite count_nil; split; [lia|by intros ?%elem_of_nil]|].
  rewrite count_cons, elem_of_cons.
  destruct (decide (x = y)) as [->|Hne]; [split; [auto|lia]|].
  rewrite IH. naive_solver.
Qed.

Lemma count_zero x l : Np.count x l = 0 ↔ x ∉ l.
Proof. rewrite <-count_pos. lia. Qed.

Lemma count_Permutation x l1 l2 : l1 ≡ₚ l2 → Np.count x l1 = Np.count x l2.
Proof. intros Hp. unfold Np.count. by rewrite Hp. Qed.

(** The keys of the runs are exactly the entries. *)
Lemma run_lengths_cons a ar :
  Np.run_lengths (a :: ar) =
    match Np.run_lengths ar with
    | (y, n) :: rl => if decide (a = y) then (y, S n) :: rl
                      else (a, 1) :: (y, n) :: rl
    | [] => [(a, 1)]
    end.
Proof. done. Qed.

Lemma run_lengths_keys ar x :
  x ∈ (Np.run_lengths ar).*1 ↔ x ∈ ar.
Proof.
  revert x. induction ar as [|a ar IH]; intros x; [done|].
  rewrite run_lengths_cons, elem_of_cons, <-IH.
  destruct (Np.run_lengths ar) as [|[y n] rl]; simpl.
  - rewrite list_elem_of_singleton, elem_of_nil. naive_solver.
  - destruct (decide (a = y)) as [->|Hne]; simpl;
      rewrite !elem_of_cons; naive_solver.
Qed.

Lemma run_lengths_nil ar : Np.run_lengths ar = [] ↔ ar = [].
Proof.
  split; [|by intros ->].
  destruct ar as [|a ar]; [done|]. intros E.
  assert (a ∈ (Np.run_lengths (a :: ar)).*1) as Ha
    by (apply run_lengths_keys; left).
  rewrite E in Ha. by apply elem_of_nil in Ha.
Qed.

(** On a sorted array the keys come out sorted ... *)
Lemma run_lengths_keys_sorted ar :
  StronglySorted String.le ar →
  StronglySorted String.le (Np.run_lengths ar).*1.
Proof.
  induction 1 as [|a ar Hs IH Ha]; [constructor|].
  rewrite run_lengths_cons.
  pose proof (run_lengths_keys ar) as Hk.
  destruct (Np.run_lengths ar) as [|[y n] rl]; simpl in *.
  - repeat constructor.
  - destruct (decide (a = y)) as [->|Hne]; simpl; [done|].
    constructor; [done|].
    apply Forall_forall. intros x Hx.
    rewrite Forall_forall in Ha. by apply Ha, Hk.
Qed.

(** The head key of a sorted array's runs differs from a smaller-or-equal
    entry put in front only if that entry does not occur in the array. *)
Lemma sorted_head_fresh a y n rl ar :
  StronglySorted String.le (a :: ar) →
  Np.run_lengths ar = (y, n) :: rl →
  a ≠ y → a ∉ ar.
Proof.
  intros [Ha Hs]%StronglySorted_cons E Hne Hin.
  pose proof (run_lengths_keys_sorted ar Hs) as Hks.
  pose proof (run_lengths_keys ar) as Hk.
  rewrite E in Hks, Hk. simpl in *.
  apply StronglySorted_cons in Hks as [Hy _].
  rewrite Forall_forall in Ha, Hy.
  apply Hne, (anti_symm String.le).
  - apply Ha, Hk. by left.
  - apply Hk, elem_of_cons in Hin as [->|Hin]; [done|by apply Hy].
Qed.

Lemma run_lengths_keys_NoDup ar :
  StronglySorted String.le ar → NoDup (Np.run_lengths ar).*1.
Proof.
  induction ar as [|a ar IH]; intros Hs; [constructor|].
  pose proof Hs as [Ha Hs']%StronglySorted_cons.
  specialize (IH Hs').
  pose proof (sorted_head_fresh a) as Hfresh.
  pose proof (run_lengths_keys ar) as Hk.
  rewrite run_lengths_cons.
  destruct (Np.run_lengths ar) as [|[y n] rl] eqn:E; simpl in *.
  - apply NoDup_singleton.
  - destruct (decide (a = y)) as [->|Hne]; simpl; [done|].
    apply NoDup_cons. split; [|done].
    intros Hin%Hk. by eapply Hfresh.
Qed.

(** ... and each run is all the occurrences of its key. *)
Lemma run_lengths_counts ar :
  StronglySorted String.le ar →
  Forall (λ e, e.2 = Np.count e.1 ar) (Np.run_lengths ar).
Proof.
  induction ar as [|a ar IH]; intros Hs; [constructor|].
  pose proof Hs as [Ha Hs']%StronglySorted_cons.
  specialize (IH Hs').
  pose proof (sorted_head_fresh a) as Hfresh.
  pose proof (run_lengths_keys ar) as Hk.
  pose proof (run_lengths_keys_NoDup ar Hs') as Hnd.
  rewrite run_lengths_cons.
  destruct (Np.run_lengths ar) as [|[y n] rl] eqn:E; simpl in *.
  - apply run_lengths_nil in E as ->.
    constructor; [|constructor]. simpl.
    by rewrite count_cons, decide_True.
  - apply Forall_cons in IH as [Hn IH]. simpl in Hn.
    apply NoDup_cons in Hnd as [Hy Hnd].
    assert (∀ e, e ∈ rl → e.1 ≠ a → e.2 = Np.count e.1 (a :: ar)) as Hrest.
    { rewrite Forall_forall in IH. intros [x k] Hx Hxa; simpl in *.
      rewrite count_cons, decide_False by done. by apply (IH (x, k)). }
    destruct (decide (a = y)) as [->|Hne].
    + constructor; simpl.
      * rewrite count_cons, decide_True by done. by rewrite Hn.
      * apply Forall_forall. intros e He. apply Hrest; [done|].
        intros <-. apply Hy, list_elem_of_fmap. by exists e.
    + assert (a ∉ ar) as Hnin by eauto.
      constructor; simpl.
      * rewrite count_cons, decide_True by done.
        f_equal. symmetry. by apply count_zero.
      * constructor; simpl.
        -- by rewrite count_cons, decide_False.
        -- apply Forall_forall. intros e He. apply Hrest; [done|].
           intros <-. apply Hnin, Hk. right.
           apply list_elem_of_fmap. by exists e.
Qed.

End NpFacts.

(** ** The maximum and the indices that hold it *)

Section SelectionFacts.

Implicit Types (u v : string) (l : list string) (rl : list (string * nat))
  (cs : list nat).

Lemma np_max_Ok cs : cs ≠ [] → ∃ m, Np.max cs = Ok m.
Proof. destruct cs; [done|]. eauto. Qed.

Lemma np_max_spec cs m :
  Np.max cs = Ok m → m ∈ cs ∧ Forall (λ c, c ≤ m) cs.
Proof.
  destruct cs as [|c cs]; [done|]. simpl. intros [= <-].
  induction cs as [|d cs [IHin IHle]]; simpl.
  - split; [by left|]. by repeat constructor.
  - apply Forall_cons in IHle as [Hc IHle]. split.
    + destruct (Nat.max_spec d (foldr Nat.max c cs)) as [[_ ->]|[_ ->]].
      * apply elem_of_cons in IHin as [->|?]; [by left|]. by do 2 right.
      * right; by left.
    + repeat constructor; [lia..|].
      eapply Forall_impl; [exact IHle|]. simpl. lia.
Qed.

(** Indexing the unique values with the positions of [m] among the counts
    keeps the runs of length [m], in order. *)
Lemma take_where_eq rl pre m :
  Np.take (pre ++ rl.*1) (Np.where_eq_from (length pre) rl.*2 m) =
    Ok (filter (λ e, e.2 = m) rl).*1.
Proof.
  revert pre. induction rl as [|[x c] rl IH]; intros pre; [done|].
  specialize (IH (pre ++ [x])).
  rewrite <-(assoc_L (++)), length_app, Nat.add_1_r in IH.
  change ([x] ++ rl.*1) with (x :: rl.*1) in IH.
  rewrite !fmap_cons, filter_cons. cbn [fst snd Np.where_eq_from].
  destruct (decide (c = m)) as [->|Hne]; [|exact IH].
  rewrite fmap_cons. cbn [fst Np.take].
  rewrite list_lookup_middle by done. by rewrite IH.
Qed.

Lemma sorted_fmap_filter {A} (R : relation string) (P : A → Prop)
  `{∀ a, Decision (P a)} (f : A → string) (xs : list A) :
  StronglySorted R (f <$> xs) → StronglySorted R (f <$> filter P xs).
Proof.
  induction xs as [|a xs IH]; [done|].
  rewrite fmap_cons, filter_cons.
  intros [Ha Hs]%StronglySorted_cons.
  destruct (decide (P a)); [|by apply IH].
  rewrite fmap_cons. apply StronglySorted_cons. split; [|by apply IH].
  rewrite Forall_forall in Ha. apply Forall_forall.
  intros y (b & -> & [_ Hb]%list_elem_of_filter)%list_elem_of_fmap.
  apply Ha, list_elem_of_fmap. eauto.
Qed.

(** The selection reads off the first run of maximal length. *)
Lemma predominant_utm_runs l :
  predominant_utm l =
    let rl := Np.run_lengths (merge_sort String.le l) in
    rbind (Np.max rl.*2) (λ m, Np.item0 (filter (λ e, e.2 = m) rl).*1).
Proof.
  unfold predominant_utm, Np.unique, Np.where_eq. cbv beta zeta iota.
  destruct (Np.max _) as [m|e]; [|done]. cbn [rbind].
  exact (f_equal (λ r, rbind r Np.item0) (take_where_eq _ [] m)).
Qed.

(** What the selection returns on a non-empty list: a code that occurs,
    that no code outnumbers, and that precedes every code occurring as
    often. *)
Lemma predominant_utm_spec l :
  l ≠ [] →
  ∃ u, predominant_utm l = Ok u ∧ u ∈ l
       ∧ (∀ v, Np.count v l ≤ Np.count u l)
       ∧ (∀ v, Np.count v l = Np.count u l → String.le u v).
Proof.
  intros Hl. rewrite predominant_utm_runs. simpl.
  set (s := merge_sort String.le l).
  assert (s ≡ₚ l) as Hperm by apply merge_sort_Permutation.
  assert (StronglySorted String.le s) as Hs
    by apply (StronglySorted_merge_sort _).
  pose proof (run_lengths_keys s) as Hk.
  pose proof (run_lengths_counts s Hs) as Hc.
  pose proof (run_lengths_keys_sorted s Hs) as Hks.
  assert (Np.run_lengths s ≠ []) as Hrl.
  { rewrite run_lengths_nil. intros E. rewrite E in Hperm.
    by apply Permutation_nil_l in Hperm. }
  set (rl := Np.run_lengths s) in *.
  destruct (np_max_Ok rl.*2) as [m Hm].
  { by destruct rl. }
  rewrite Hm. simpl.
  apply np_max_spec in Hm as [Hmin Hmle].
  apply list_elem_of_fmap in Hmin as ([u0 m0] & -> & Hu0). simpl in *.
  pose proof (sorted_fmap_filter String.le (λ e, e.2 = m0) fst rl Hks) as HF.
  assert ((u0, m0) ∈ filter (λ e, e.2 = m0) rl) as HinF
    by by apply list_elem_of_filter.
  assert (∀ e, e ∈ rl → e.2 = Np.count e.1 l) as Hcount.
  { intros e He. rewrite Forall_forall in Hc.
    rewrite (Hc e He). by apply count_Permutation. }
  assert (∀ v, v ∈ l → ∃ k, (v, k) ∈ rl) as Hentry.
  { intros v Hv. rewrite <-Hperm in Hv.
    apply Hk, list_elem_of_fmap in Hv as ([v' k] & -> & ?). eauto. }
  assert (∀ v, Np.count v l ≤ m0) as Hmax.
  { intros v. destruct (decide (v ∈ l)) as [Hv|Hv].
    - destruct (Hentry v Hv) as [k Hvk].
      pose proof (Hcount _ Hvk) as Hck. simpl in Hck. rewrite <-Hck.
      rewrite Forall_forall in Hmle. apply Hmle.
      apply list_elem_of_fmap. by exists (v, k).
    - apply count_zero in Hv. lia. }
  destruct (filter (λ e, e.2 = m0) rl) as [|[u m] F] eqn:EF;
    [by apply elem_of_nil in HinF|].
  assert ((u, m) ∈ rl ∧ m = m0) as [Hu ->].
  { assert ((u, m) ∈ filter (λ e, e.2 = m0) rl) as Hin
      by (rewrite EF; left).
    apply list_elem_of_filter in Hin as [? ?]. done. }
  pose proof (Hcount _ Hu) as Hcu. simpl in Hcu.
  exists u. split; [done|]. split; [|split].
  - rewrite <-Hperm. apply Hk, list_elem_of_fmap. by exists (u, m0).
  - intros v. rewrite <-Hcu. apply Hmax.
  - intros v Hv. rewrite <-Hcu in Hv.
    assert (v ∈ l) as Hvl.
    { apply count_pos. rewrite Hv.
      rewrite Hcu. apply count_pos.
      rewrite <-Hperm. apply Hk, list_elem_of_fmap. by exists (u, m0). }
    destruct (Hentry v Hvl) as [k Hvk].
    pose proof (Hcount _ Hvk) as Hck. simpl in Hck.
    assert ((v, k) ∈ (u, m0) :: F) as Hin.
    { rewrite <-EF. apply list_elem_of_filter. split; [simpl; lia|done]. }
    simpl in HF. apply StronglySorted_cons in HF as [HuF _].
    apply elem_of_cons in Hin as [[= -> ->]|Hin]; [done|].
    rewrite Forall_forall in HuF. apply HuF.
    apply list_elem_of_fmap. by exists (v, k).
Qed.

(** A code that is least among the most frequent is the one returned. *)
Lemma predominant_utm_unique l u :
  u ∈ l →
  (∀ v, Np.count v l ≤ Np.count u l) →
  (∀ v, Np.count v l = Np.count u l → String.le u v) →
  predominant_utm l = Ok u.
Proof.
  intros Hu Hmax Hleast.
  destruct (predominant_utm_spec l) as (w & -> & Hw & Hwmax & Hwleast).
  { intros ->. by apply elem_of_nil in Hu. }
  f_equal. pose proof (Hmax w). pose proof (Hwmax u).
  apply (anti_symm String.le); [apply Hwleast|apply Hleast]; lia.
Qed.

Lemma predominant_utm_Permutation l1 l2 :
  l1 ≡ₚ l2 → predominant_utm l1 = predominant_utm l2.
Proof.
  intros Hp. destruct l1 as [|x l1].
  { by apply Permutation_nil_l in Hp as ->. }
  destruct (predominant_utm_spec (x :: l1)) as (u & -> & Hu & Hmax & Hleast);
    [done|].
  symmetry. apply predominant_utm_unique.
  - by rewrite <-Hp.
  - intros v. rewrite <-!(count_Permutation _ _ _ Hp). apply Hmax.
  - intros v. rewrite <-!(count_Permutation _ _ _ Hp). apply Hleast.
Qed.

Lemma predominant_utm_all_equal l c :
  l ≠ [] → Forall (c =.) l → predominant_utm l = Ok c.
Proof.
  intros Hl Hall.
  destruct (predominant_utm_spec l Hl) as (u & -> & Hu & _).
  rewrite Forall_forall in Hall. by rewrite (Hall u Hu).
Qed.

End SelectionFacts.

(** ** The predominant code: the claims *)

Lemma count_abab (A B v : string) :
  A ≠ B →
  Np.count v [A; B; A; B] = if decide (v = A) then 2
                            else if decide (v = B) then 2 else 0.
Proof.
  intros Hne. rewrite !count_cons, count_nil.
  repeat case_decide; simplify_eq; done.
Qed.

Lemma predominant_utm_abab (A B : string) :
  predominant_utm [A; B; A; B] = Ok (if decide (String.le A B) then A else B).
Proof.
  destruct (decide (A = B)) as [->|Hne].
  { rewrite (predominant_utm_all_equal _ B); [|done|by repeat constructor].
    by case_decide. }
  assert (∀ u, u = A ∨ u = B →
               (∀ v, v = A ∨ v = B → String.le u v) →
               predominant_utm [A; B; A; B] = Ok u) as Hsel.
  { intros u Hu Hle. apply predominant_utm_unique.
    - destruct Hu as [-> | ->]; set_solver.
    - intros v. rewrite !count_abab by done.
      destruct Hu as [-> | ->]; repeat case_decide; simplify_eq; lia.
    - intros v. rewrite !count_abab by done. intros Hv. apply Hle.
      destruct Hu as [-> | ->]; repeat case_decide; simplify_eq; auto. }
  case_decide as Hle.
  - apply Hsel; [by left|]. by intros v [-> | ->].
  - apply Hsel; [by right|]. intros v [-> | ->]; [|done].
    by destruct (total String.le A B).
Qed.

Lemma spec_select_abab (A B : string) :
  Spec.select_predominant_crs [A; B; A; B] = Ok A.
Proof.
  unfold Spec.select_predominant_crs, Spec.zone_tally. cbn.
  repeat (case_decide; simplify_eq; cbn); done.
Qed.

(** C1, as the code has it: on a non-empty list the selection returns a code
    that no code outnumbers, and among the codes that tie for the maximum
    count it returns the one that is least in string order, wherever the
    codes stand in the list (reordering the list does not change the
    outcome); for the codes [A, B, A, B] that is [A] when [A] is not above
    [B] in string order, and [B] otherwise. *)
Theorem predominant_utm_tie_least (utm_zones : list string) :
  utm_zones ≠ [] →
  ∃ code,
    predominant_utm utm_zones = Ok code
    ∧ (∀ v, Np.count v utm_zones ≤ Np.count code utm_zones)
    ∧ (∀ v, Np.count v utm_zones = Np.count code utm_zones → String.le code v)
    ∧ (∀ reordered, reordered ≡ₚ utm_zones → predominant_utm reordered = Ok code)
    ∧ (∀ A B, utm_zones = [A; B; A; B] →
              code = if decide (String.le A B) then A else B).
Proof.
  intros Hne.
  destruct (predominant_utm_spec utm_zones Hne) as (u & Hu & _ & Hmax & Hleast).
  exists u. split; [done|]. split; [done|]. split; [done|]. split.
  - intros reordered Hp. by rewrite (predominant_utm_Permutation _ _ Hp).
  - intros A B ->. rewrite predominant_utm_abab in Hu. by injection Hu.
Qed.

Lemma predominant_utm_tie_least_witness :
  ["32645"; "32644"; "32645"; "32644"] ≠ []
  ∧ ∃ code,
      predominant_utm ["32645"; "32644"; "32645"; "32644"] = Ok code
      ∧ (∀ v, Np.count v ["32645"; "32644"; "32645"; "32644"]
              ≤ Np.count code ["32645"; "32644"; "32645"; "32644"])
      ∧ (∀ v, Np.count v ["32645"; "32644"; "32645"; "32644"]
              = Np.count code ["32645"; "32644"; "32645"; "32644"] →
              String.le code v)
      ∧ (∀ reordered, reordered ≡ₚ ["32645"; "32644"; "32645"; "32644"] →
                      predominant_utm reordered = Ok code)
      ∧ (∀ A B, ["32645"; "32644"; "32645"; "32644"] = [A; B; A; B] →
                code = if decide (String.le A B) then A else B).
Proof.
  split; [done|].
  apply (predominant_utm_tie_least ["32645"; "32644"; "32645"; "32644"]).
  done.
Defined.

(** C1, as worded, fails: in [32645, 32644, 32645, 32644] the two codes tie,
    32645 is met first and is what the first-maximum scan of the design
    document selects, and the notebook's selection is not 32645. *)
Lemma predominant_utm_not_first_met :
  Np.count "32645" ["32645"; "32644"; "32645"; "32644"]
    = Np.count "32644" ["32645"; "32644"; "32645"; "32644"]
  ∧ Spec.select_predominant_crs ["32645"; "32644"; "32645"; "32644"]
    = Ok "32645"
  ∧ predominant_utm ["32645"; "32644"; "32645"; "32644"] ≠ Ok "32645".
Proof. split; [done|]. split; [done|]. by vm_compute. Qed.

(** C3: on a non-empty list the selection returns a code that occurs in the
    list, and when every entry is the same code it returns that code. *)
Theorem predominant_utm_present (utm_zones : list string) :
  utm_zones ≠ [] →
  ∃ code,
    predominant_utm utm_zones = Ok code
    ∧ code ∈ utm_zones
    ∧ (∀ c, Forall (c =.) utm_zones → code = c).
Proof.
  intros Hne.
  destruct (predominant_utm_spec utm_zones Hne) as (u & Hu & Hin & _).
  exists u. repeat split; [done..|].
  intros c Hall. rewrite Forall_forall in Hall. symmetry. by apply Hall.
Qed.

Lemma predominant_utm_present_witness :
  ["32645"; "32645"; "32645"] ≠ []
  ∧ ∃ code,
      predominant_utm ["32645"; "32645"; "32645"] = Ok code
      ∧ code ∈ ["32645"; "32645"; "32645"]
      ∧ (∀ c, Forall (c =.) ["32645"; "32645"; "32645"] → code = c).
Proof.
  split; [done|].
  apply (predominant_utm_present ["32645"; "32645"; "32645"]). done.
Defined.

(** C4, as worded, fails: the error raised on the empty list is not an
    [EmptyInputError]. *)
Lemma empty_selection_error_kind :
  predominant_utm [] ≠ Raise EmptyInputError.
Proof. by vm_compute. Qed.

(** C9: when two different codes tie for the maximum count, the selection
    returns the tied code that is first in string order, the order in which
    [np.unique] lists the distinct codes, and not the one met first; for
    [B, A, B, A] with [A] below [B] it returns [A], while the first-maximum
    scan of the design document selects [B]. *)
Theorem predominant_utm_sorted_tie_break (utm_zones : list string) (u v : string) :
  u ≠ v →
  u ∈ utm_zones →
  Np.count u utm_zones = Np.count v utm_zones →
  (∀ w, Np.count w utm_zones ≤ Np.count u utm_zones) →
  ∃ code,
    predominant_utm utm_zones = Ok code
    ∧ Np.count code utm_zones = Np.count u utm_zones
    ∧ String.le code u ∧ String.le code v
    ∧ (∀ w, Np.count w utm_zones = Np.count u utm_zones → String.le code w)
    ∧ (∀ A B, String.le A B → A ≠ B → utm_zones = [B; A; B; A] →
              code = A ∧ Spec.select_predominant_crs utm_zones = Ok B).
Proof.
  intros Huv Hu Htie Hmax.
  destruct (predominant_utm_spec utm_zones) as (c & Hc & Hin & Hcmax & Hleast).
  { intros ->. by apply elem_of_nil in Hu. }
  assert (Np.count c utm_zones = Np.count u utm_zones) as Hcu.
  { pose proof (Hmax c). pose proof (Hcmax u). lia. }
  exists c. split; [done|]. split; [done|].
  split; [apply Hleast; lia|]. split; [apply Hleast; lia|].
  split; [intros w Hw; apply Hleast; lia|].
  intros A B Hle Hne ->. split; [|apply spec_select_abab].
  rewrite predominant_utm_abab in Hc. injection Hc as <-.
  case_decide as Hba; [|done].
  by apply (anti_symm String.le).
Qed.

Lemma predominant_utm_sorted_tie_break_witness :
  "32645" ≠ "32644"
  ∧ "32645" ∈ ["32645"; "32644"; "32645"; "32644"]
  ∧ Np.count "32645" ["32645"; "32644"; "32645"; "32644"]
    = Np.count "32644" ["32645"; "32644"; "32645"; "32644"]
  ∧ (∀ w, Np.count w ["32645"; "32644"; "32645"; "32644"]
          ≤ Np.count "32645" ["32645"; "32644"; "32645"; "32644"])
  ∧ ∃ code,
      predominant_utm ["32645"; "32644"; "32645"; "32644"] = Ok code
      ∧ String.le code "32645" ∧ String.le code "32644"
      ∧ (∀ A B, String.le A B → A ≠ B →
                ["32645"; "32644"; "32645"; "32644"] = [B; A; B; A] →
                code = A
                ∧ Spec.select_predominant_crs
                    ["32645"; "32644"; "32645"; "32644"] = Ok B).
Proof.
  assert (∀ w, Np.count w ["32645"; "32644"; "32645"; "32644"]
               ≤ Np.count "32645" ["32645"; "32644"; "32645"; "32644"]) as Hmax.
  { intros w. rewrite !count_abab by done.
    repeat case_decide; simplify_eq; lia. }
  split; [done|]. split; [by left|]. split; [reflexivity|]. split; [exact Hmax|].
  destruct (predominant_utm_sorted_tie_break
              ["32645"; "32644"; "32645"; "32644"] "32645" "32644")
    as (code & Hcode & _ & Hu & Hv & _ & Hbaba);
    [done|by left|reflexivity|exact Hmax|].
  exists code. split; [exact Hcode|]. split; [exact Hu|]. split; [exact Hv|].
  exact Hbaba.
Defined.

Lemma get_DEM_dates_fold (tps : list string) (acc : result (list string))
  (dates : list string) :
  foldl (λ dates pth,
           rbind dates (λ dates,
           rbind (date_of pth) (λ date, Ok (dates ++ [date]))))
        acc tps = Ok dates →
  ∃ seen new, acc = Ok seen ∧ dates = seen ++ new
              ∧ Forall2 (λ pth date, date_of pth = Ok date) tps new.
Proof.
  revert acc. induction tps as [|pth tps IH]; intros acc; cbn [foldl].
  - intros ->. exists dates, []. by rewrite app_nil_r.
  - intros (seen & new & Hacc & -> & Hnew)%IH.
    destruct acc as [seen0|e]; [|done]. cbn [rbind] in Hacc.
    destruct (date_of pth) as [date|e] eqn:Hdate; [|done].
    injection Hacc as <-.
    exists seen0, (date :: new). rewrite <-(assoc_L (++)).
    split; [done|]. split; [done|]. by constructor.
Qed.

(** C10: [get_DEM_dates] does not look at its argument: whatever two lists
    it is called with, the outcome is the same.  It is the one determined by
    the notebook-level [tiff_paths]: a [NameError] while that name is
    unbound, else one date per entry of [tiff_paths]. *)
Theorem get_DEM_dates_ignores_paths (tiff_paths : option (list string))
  (p1 p2 : list string) :
  get_DEM_dates tiff_paths p1 = get_DEM_dates tiff_paths p2
  ∧ (tiff_paths = None → get_DEM_dates tiff_paths p1 = Raise NameError)
  ∧ (∀ tps dates,
       tiff_paths = Some tps →
       get_DEM_dates tiff_paths p1 = Ok dates →
       Forall2 (λ pth date, date_of pth = Ok date) tps dates).
Proof.
  split; [reflexivity|]. split; [by intros ->|].
  intros tps dates -> Hdates. unfold get_DEM_dates in Hdates.
  apply get_DEM_dates_fold in Hdates as (seen & new & [= <-] & -> & Hnew).
  done.
Qed.

(** ** Strings: [split], [strip] and path names *)

Section StringFacts.

Implicit Types (s a b : string) (sep c : ascii).

Lemma append_nil_l s : "" +:+ s = s.
Proof. done. Qed.

Lemma append_cons c a b : String c a +:+ b = String c (a +:+ b).
Proof. done. Qed.

Lemma append_assoc a b s : (a +:+ b) +:+ s = a +:+ (b +:+ s).
Proof. induction a as [|c a IH]; [done|]. by rewrite !append_cons, IH. Qed.

Lemma split_nonempty sep s : Py.split sep s ≠ [].
Proof.
  destruct s as [|c s]; simpl; [done|].
  destruct (decide (c = sep)); [done|]. by destruct (Py.split sep s).
Qed.

(** [(a + sep + b).split(sep) == a.split(sep) + b.split(sep)] *)
Lemma split_app sep a b :
  Py.split sep (a +:+ String sep b) = Py.split sep a ++ Py.split sep b.
Proof.
  induction a as [|c a IH].
  - rewrite append_nil_l. simpl. by rewrite decide_True.
  - rewrite append_cons. simpl.
    destruct (decide (c = sep)) as [->|Hne]; [by rewrite IH|].
    rewrite IH. pose proof (split_nonempty sep a).
    by destruct (Py.split sep a).
Qed.

Lemma split_absent sep s : Py.contains sep s = false → Py.split sep s = [s].
Proof.
  induction s as [|c s IH]; [done|]. simpl.
  intros [Hc Hs]%orb_false_iff. apply bool_decide_eq_false in Hc.
  rewrite decide_False by done. by rewrite IH.
Qed.

Lemma split_single sep s b : Py.split sep s = [b] → s = b.
Proof.
  revert b. induction s as [|c s IH]; intros b; simpl.
  - by intros [= <-].
  - pose proof (split_nonempty sep s).
    destruct (decide (c = sep)).
    + intros [= _ E]. done.
    + destruct (Py.split sep s) as [|p ps] eqn:E; [done|].
      intros [= <- ->]. f_equal. by apply IH.
Qed.

Lemma split_pair sep s a b :
  Py.split sep s = [a; b] → s = a +:+ String sep b.
Proof.
  revert a. induction s as [|c s IH]; intros a; simpl; [done|].
  destruct (decide (c = sep)) as [->|Hne].
  - intros [= <- Hs]. rewrite append_nil_l. f_equal.
    by apply (split_single sep).
  - pose proof (split_nonempty sep s).
    destruct (Py.split sep s) as [|p ps] eqn:E; [done|].
    intros [= <- ->]. rewrite append_cons. f_equal. by apply IH.
Qed.


End StringFacts.

(** ** Discovery *)

Lemma fnmatch_plain (pat name : string) :
  Py.contains "*" pat = false → Glob.fnmatch pat name = true → name = pat.
Proof.
  revert name. induction pat as [|c pat IH]; intros name; simpl.
  - intros _ Hn. by apply bool_decide_eq_true in Hn.
  - intros [Hc Hp]%orb_false_iff. apply bool_decide_eq_false in Hc.
    rewrite decide_False by done.
    destruct name as [|d name]; [done|].
    intros [Hd Hm]%andb_true_iff. apply bool_decide_eq_true in Hd as <-.
    f_equal. by apply IH.
Qed.

(** A discovered tile lies directly in [DEMs]. *)
Lemma matches_DEM_pth (p : string) :
  Glob.matches DEM_pth p → ∃ name, Py.split "/" p = ["DEMs"; name].
Proof.
  unfold Glob.matches.
  change (Py.split "/" DEM_pth) with ["DEMs"; "*.tif*"].
  destruct (Py.split "/" p) as [|d [|name [|??]]]; simpl; try done.
  - by rewrite andb_false_r.
  - intros [[Hd _]%andb_prop_elim _]%andb_prop_elim.
    apply Is_true_true, fnmatch_plain in Hd as ->; [|done]. eauto.
  - intros [_ [_ []]%andb_prop_elim]%andb_prop_elim.
Qed.

Lemma matches_DEM_pth_prefix (p : string) :
  Glob.matches DEM_pth p → ∃ name, p = "DEMs/" +:+ name.
Proof.
  intros [name Hp]%matches_DEM_pth. exists name.
  by apply split_pair in Hp.
Qed.

Section WorldFacts.

Context `{Tools}.

Implicit Types (w : world) (fs : gmap string raster) (p q : string)
  (z : zones) (k : nat).

Lemma bind_run {A B} (m : cell A) (f : A → cell B) w :
  (m ≫= f) w = match m w with
               | (Ok a, w') => f a w'
               | (Raise e, w') => (Raise e, w')
               end.
Proof. done. Qed.

Lemma ret_run {A} (a : A) w : mret (M := cell) a w = (Ok a, w).
Proof. done. Qed.

Lemma eval_run {A} (r : result A) w : eval r w = (r, w).
Proof. done. Qed.

Lemma index_Some {A} (xs : list A) i x : xs !! i = Some x → Py.index xs i = Ok x.
Proof. unfold Py.index. by intros ->. Qed.

Lemma for_cons {A} (x : A) xs (body : A → cell ()) w :
  for_ (x :: xs) body w = (body x;; for_ xs body) w.
Proof. done. Qed.

Lemma foldl_snoc {A} (xs acc : list A) :
  foldl (λ l x, l ++ [x]) acc xs = acc ++ xs.
Proof.
  revert acc. induction xs as [|x xs IH]; intros acc; simpl.
  - by rewrite app_nil_r.
  - by rewrite IH, <-(assoc_L (++)).
Qed.

Lemma tiles_NoDup fs : NoDup (tiles fs).
Proof. apply NoDup_filter, listing_NoDup. Qed.

Lemma elem_of_tiles fs p :
  p ∈ tiles fs ↔ Glob.matches DEM_pth p ∧ is_Some (fs !! p).
Proof. unfold tiles. by rewrite list_elem_of_filter, listing_elem. Qed.

Lemma get_DEM_paths_run w :
  get_DEM_paths DEM_pth w = (Ok (tiles (files w)), w).
Proof.
  unfold get_DEM_paths. rewrite bind_run. unfold glob.
  rewrite ret_run. by rewrite (foldl_snoc _ []).
Qed.

(** The rasters of a list of existing paths. *)
Lemma rasters_exist fs (ps : list string) :
  Forall (λ p, is_Some (fs !! p)) ps →
  ∃ infos, Forall2 (λ p r, fs !! p = Some r) ps infos.
Proof.
  induction 1 as [|p ps [r Hr] _ [infos IH]]; [by exists []|].
  exists (r :: infos). by constructor.
Qed.

Lemma collect_infos w (pre ps : list string) (infos : list raster) :
  Forall2 (λ p r, files w !! p = Some r) ps infos →
  for_collect (seq (length pre) (length ps))
    (λ k, pth ← eval (Py.index (pre ++ ps) k); gdal_Info pth) w
  = (Ok infos, w).
Proof.
  intros HF. revert pre.
  induction HF as [|p r ps infos Hp _ IH]; intros pre; [done|].
  specialize (IH (pre ++ [p])).
  rewrite <-(assoc_L (++)), length_app, Nat.add_1_r in IH.
  change ([p] ++ ps) with (p :: ps) in IH.
  cbn [length seq for_collect].
  rewrite bind_run, bind_run, eval_run.
  rewrite (index_Some _ _ p) by by apply list_lookup_middle.
  unfold gdal_Info at 1. rewrite Hp.
  rewrite bind_run, IH. done.
Qed.

(** The first cell leaves the world as it is; it binds the discovered
    tiles, their codes and authorities, and the code that
    [predominant_utm] selects, or raises what [predominant_utm] raises. *)
Lemma identify_cell_run w (infos : list raster) :
  Forall2 (λ p r, files w !! p = Some r) (tiles (files w)) infos →
  identify_cell w =
    (rbind (predominant_utm (zone <$> infos)) (λ code,
       Ok (Zones (tiles (files w)) (zone <$> infos) (typ <$> infos) code)),
     w).
Proof.
  intros HF. unfold identify_cell.
  rewrite bind_run, get_DEM_paths_run, bind_run.
  pose proof (collect_infos w [] _ infos HF) as E.
  change (for_collect (seq 0 (length (tiles (files w))))
            (λ k, pth ← eval (Py.index (tiles (files w)) k); gdal_Info pth) w
          = (Ok infos, w)) in E.
  rewrite E, bind_run, eval_run.
  by destruct (predominant_utm _).
Qed.

Lemma tiles_rasters fs :
  ∃ infos, Forall2 (λ p r, fs !! p = Some r) (tiles fs) infos.
Proof.
  apply rasters_exist, Forall_forall. by intros p [_ ?]%elem_of_tiles.
Qed.

(** *** The body of the reprojection loop *)

Lemma reproject_body_run z k w (pth d n t zk : string) :
  DEM_paths z !! k = Some pth →
  utm_types z !! k = Some t →
  utm_zones z !! k = Some zk →
  Py.strip pth = pth →
  Py.split "/" pth = [d; n] →
  reproject_body z k w =
    (Ok (),
     World
       (delete pth
          (if gdalwarp_succeeds (files w) pth (d +:+ "/r" +:+ n)
                (t, zk) ("EPSG", predominant z)
           then <[d +:+ "/r" +:+ n := Raster "EPSG" (predominant z)]> (files w)
           else files w))
       (calls w ++ [Gdalwarp pth (d +:+ "/r" +:+ n) (t, zk)
                      ("EPSG", predominant z); Rm pth])).
Proof.
  intros Hp Ht Hz Hstrip Hsplit.
  pose proof (split_pair _ _ _ _ Hsplit) as Hpth.
  unfold reproject_body.
  rewrite bind_run, eval_run, (index_Some _ _ _ Hp), Hstrip.
  rewrite bind_run, eval_run, Hsplit. cbn [Py.unpack2].
  rewrite bind_run, eval_run, (index_Some _ _ _ Ht).
  rewrite bind_run, eval_run, (index_Some _ _ _ Hz), bind_run.
  change (d +:+ "/" +:+ n) with (d +:+ String "/" n). rewrite <-Hpth.
  unfold gdalwarp, rm, unlink, write, log. cbn [files calls].
  destruct (gdalwarp_succeeds _ _ _ _ _); cbn [files calls fst snd];
    by rewrite <-(assoc_L (++)).
Qed.

End WorldFacts.

(** ** The reprojection loop *)

Lemma elem_of_indices_ne_from (i : nat) (seq : list string) (x : string) (k : nat) :
  k ∈ Py.indices_ne_from i seq x ↔
    ∃ j c, k = i + j ∧ seq !! j = Some c ∧ c ≠ x.
Proof.
  revert i. induction seq as [|c seq IH]; intros i; simpl.
  - split; [by intros ?%elem_of_nil|]. by intros (j & c & _ & ? & _).
  - assert (k ∈ Py.indices_ne_from (S i) seq x ↔
              ∃ j c', k = i + S j ∧ seq !! j = Some c' ∧ c' ≠ x) as IH'.
    { rewrite IH. by setoid_rewrite Nat.add_succ_r. }
    destruct (decide (c ≠ x)) as [Hc|Hc].
    + rewrite elem_of_cons, IH'. split.
      * intros [->|(j & c' & -> & ? & ?)].
        -- exists 0, c. by rewrite Nat.add_0_r.
        -- by exists (S j), c'.
      * intros ([|j] & c' & -> & Hj & ?); [left; lia|right]. eauto.
    + rewrite IH'. split.
      * intros (j & c' & -> & ? & ?). by exists (S j), c'.
      * intros ([|j] & c' & -> & Hj & ?); simplify_eq/=; [done|eauto].
Qed.

Lemma elem_of_reproject_indicies (utm_zones : list string) (code : string) (k : nat) :
  k ∈ reproject_indicies utm_zones code ↔
    ∃ c, utm_zones !! k = Some c ∧ c ≠ code.
Proof.
  unfold reproject_indicies. rewrite elem_of_indices_ne_from.
  split; [intros (j & c & -> & ? & ?)|intros (c & ? & ?)]; eauto.
Qed.


Section LoopFacts.

Context `{Tools}.

Implicit Types (w : world) (z : zones) (k : nat).








(** A loop whose body completes and carries an invariant, indexed by the
    part of the list already processed, completes and establishes it for
    the whole list. *)
Lemma for_invariant {A} (I : list A → world → Prop) (body : A → cell ())
  (xs : list A) :
  (∀ seen x w, x ∈ xs → I seen w →
               ∃ w', body x w = (Ok (), w') ∧ I (seen ++ [x]) w') →
  ∀ seen w, I seen w →
            ∃ w', for_ xs body w = (Ok (), w') ∧ I (seen ++ xs) w'.
Proof.
  induction xs as [|x xs IH]; intros Hstep seen w HI.
  - exists w. by rewrite app_nil_r.
  - destruct (Hstep seen x w) as (w1 & Hx & HI1); [by left|done|].
    destruct (IH (λ seen x w Hin, Hstep seen x w (list_elem_of_further _ _ _ Hin))
                 (seen ++ [x]) w1 HI1) as (w2 & Hxs & HI2).
    exists w2. rewrite for_cons, bind_run, Hx.
    by rewrite <-(assoc_L (++)) in HI2.
Qed.

(** Where each path stands after the loop: untouched because it is not a
    tile to reproject, holding a raster with the target code, or absent
    because it was a tile to reproject. *)
Lemma reproject_loop_run w (infos : list raster) (code : string) :
  Forall2 (λ p r, files w !! p = Some r) (tiles (files w)) infos →
  Forall (λ p, Py.strip p = p) (tiles (files w)) →
  ∃ w',
    reproject_loop
      (Zones (tiles (files w)) (zone <$> infos) (typ <$> infos) code) w
    = (Ok (), w')
    ∧ ∀ x,
        (files w' !! x = files w !! x
         ∧ ∀ k, k ∈ reproject_indicies (zone <$> infos) code →
                tiles (files w) !! k ≠ Some x)
        ∨ (∃ r, files w' !! x = Some r ∧ zone r = code)
        ∨ (files w' !! x = None
           ∧ ∃ k, k ∈ reproject_indicies (zone <$> infos) code
                  ∧ tiles (files w) !! k = Some x).
Proof.
  intros HF Hstrip.
  set (ps := tiles (files w)) in *.
  set (ks := reproject_indicies (zone <$> infos) code).
  set (z := Zones ps (zone <$> infos) (typ <$> infos) code).
  set (I := λ (seen : list nat) (w' : world), ∀ x,
         (files w' !! x = files w !! x ∧ ∀ k, k ∈ seen → ps !! k ≠ Some x)
         ∨ (∃ r, files w' !! x = Some r ∧ zone r = code)
         ∨ (files w' !! x = None ∧ ∃ k, k ∈ ks ∧ ps !! k = Some x)).
  destruct (for_invariant I (reproject_body z) ks) with (seen := @nil nat) (w := w)
    as (w' & Hrun & HI).
  - intros seen k w1 Hk HI.
    pose proof Hk as (c & Hc & Hne)%elem_of_reproject_indicies.
    apply list_lookup_fmap_Some in Hc as (r & -> & Hr).
    destruct (Forall2_lookup_r _ _ _ _ _ HF Hr) as (q & Hq & Hqr).
    assert (q ∈ ps) as Hqin by by eapply list_elem_of_lookup_2.
    pose proof Hqin as [[n Hn]%matches_DEM_pth _]%elem_of_tiles.
    rewrite Forall_forall in Hstrip.
    eexists. split.
    { apply (reproject_body_run z k w1 q "DEMs" n (typ r) (zone r)); simpl;
        [done| |by rewrite list_lookup_fmap, Hr|by apply Hstrip|done].
      by rewrite list_lookup_fmap, Hr. }
    intros x. cbn [files predominant z].
    destruct (decide (x = q)) as [->|Hxq].
    { right; right. split; [apply lookup_delete_eq|eauto]. }
    rewrite lookup_delete_ne by done.
    assert (∀ fs' : gmap string raster, fs' !! x = files w1 !! x →
              (fs' !! x = files w !! x ∧ ∀ k', k' ∈ seen ++ [k] → ps !! k' ≠ Some x)
              ∨ (∃ r, fs' !! x = Some r ∧ zone r = code)
              ∨ (fs' !! x = None ∧ ∃ k, k ∈ ks ∧ ps !! k = Some x)) as Hsame.
    { intros fs' ->. destruct (HI x) as [[Hx Hseen]|[?|?]]; [left|by right; left|by right; right].
      split; [done|].
      intros k' [?|Hk'%list_elem_of_singleton]%elem_of_app; [by apply Hseen|].
      subst k'. rewrite Hq. congruence. }
    destruct (gdalwarp_succeeds _ _ _ _ _); [|by apply Hsame].
    destruct (decide (x = "DEMs" +:+ "/r" +:+ n)) as [->|Hxn].
    + right; left. eexists. by rewrite lookup_insert_eq.
    + apply Hsame. by rewrite lookup_insert_ne.
  - intros x. left. split; [done|]. by intros k ?%elem_of_nil.
  - exists w'. split; [exact Hrun|]. exact HI.
Qed.

End LoopFacts.

(** ** Discovery, selection, reprojection: running it again *)

Section PassFacts.

Context `{Tools}.

Implicit Types (w : world) (z : zones).

(** The pass, split into its three steps. *)
Lemma reproject_pass_run w (infos : list raster) :
  Forall2 (λ p r, files w !! p = Some r) (tiles (files w)) infos →
  reproject_pass w =
    match predominant_utm (zone <$> infos) with
    | Ok code =>
        let z := Zones (tiles (files w)) (zone <$> infos) (typ <$> infos) code in
        match reproject_loop z w with
        | (Ok _, w') => (Ok z, w')
        | (Raise e, w') => (Raise e, w')
        end
    | Raise e => (Raise e, w)
    end.
Proof.
  intros HF. unfold reproject_pass.
  rewrite bind_run, (identify_cell_run w infos HF).
  destruct (predominant_utm _) as [code|e]; [|done]. cbn [rbind].
  rewrite bind_run. by destruct (reproject_loop _ w) as [[[]|e] w'].
Qed.

(** With no tile in [DEMs], the first cell stops at [np.max]. *)
Lemma identify_cell_empty w :
  tiles (files w) = [] → identify_cell w = (Raise ValueError, w).
Proof.
  intros E. rewrite (identify_cell_run w []); [done|]. rewrite E. constructor.
Qed.

(** C4, as the code has it: on the empty list the selection raises the
    [ValueError] of [np.max] on a zero-size array, no value is returned; so
    does the first cell when discovery finds no tile, and it leaves the
    world as it is. *)
Theorem predominant_utm_empty :
  predominant_utm [] = Raise ValueError
  ∧ ∀ w, tiles (files w) = [] → identify_cell w = (Raise ValueError, w).
Proof. split; [reflexivity|]. apply identify_cell_empty. Qed.

(** With at least one tile, and no tile name that [strip] would change, the
    pass completes. *)
Lemma reproject_pass_completes w :
  tiles (files w) ≠ [] →
  Forall (λ p, Py.strip p = p) (tiles (files w)) →
  ∃ z w', reproject_pass w = (Ok z, w').
Proof.
  intros Hne Hstrip.
  destruct (tiles_rasters (files w)) as [infos HF].
  rewrite (reproject_pass_run w infos HF).
  destruct (predominant_utm_spec (zone <$> infos)) as (code & -> & _).
  { intros E%fmap_nil_inv. subst infos. by apply Forall2_nil_inv_r in HF. }
  cbv zeta.
  destruct (reproject_loop_run w infos code HF Hstrip) as (w' & -> & _).
  eauto.
Qed.


End PassFacts.

(** ** Merging and cleaning up *)

Lemma filter_all {A} (P : A → Prop) `{∀ x, Decision (P x)} (l : list A) :
  Forall P l → filter P l = l.
Proof.
  induction 1 as [|x l Hx _ IH]; [done|].
  by rewrite filter_cons_True, IH.
Qed.

Lemma join_paths_cons (p : string) (ps : list string) :
  join_paths (p :: ps) = Str (foldl (λ s pth, s +:+ " " +:+ pth) p ps).
Proof.
  unfold join_paths. cbn [foldl].
  assert (∀ n s,
    (foldl (λ '(test, DEMin) pth,
              match test, DEMin with
              | 0, _ => (test + 1, Str pth)
              | _, Str s => (test + 1, Str (s +:+ " " +:+ pth))
              | _, EmptyDict => (test + 1, Str ("{} " +:+ pth))
              end)
           (S n, Str s) ps).2
    = Str (foldl (λ s pth, s +:+ " " +:+ pth) s ps)) as Hgen.
  { induction ps as [|q ps IH]; intros n s; [done|].
    cbn [foldl]. rewrite Nat.add_1_r. apply IH. }
  apply (Hgen 0).
Qed.

Lemma foldl_join_prefix (a b : string) (ps : list string) :
  foldl (λ s pth, s +:+ " " +:+ pth) (a +:+ b) ps
  = a +:+ foldl (λ s pth, s +:+ " " +:+ pth) b ps.
Proof.
  revert b. induction ps as [|q ps IH]; intros b; [done|].
  cbn [foldl]. by rewrite append_assoc, IH.
Qed.

(** Splitting the joined paths at the blanks gives the paths back, when no
    path contains a blank. *)
Lemma split_join (p : string) (ps : list string) :
  Forall (λ q, Py.contains " " q = false) ps →
  Py.split " " (foldl (λ s pth, s +:+ " " +:+ pth) p ps)
  = Py.split " " p ++ ps.
Proof.
  intros Hps. revert p.
  induction Hps as [|q ps Hq _ IH]; intros p; cbn [foldl].
  - by rewrite app_nil_r.
  - rewrite IH. change (" " +:+ q) with (String " " q).
    by rewrite split_app, (split_absent _ q), <-(assoc_L (++)).
Qed.

Section MergeFacts.

Context `{Tools}.

Implicit Types (w : world) (p q : string) (ps : list string).

Lemma cleanup_body_run p w :
  p ≠ "" → is_Some (files w !! p) →
  cleanup_body p w = (Ok (), unlink p (log (OsRemove p) w)).
Proof.
  intros Hp [r Hr]. unfold cleanup_body.
  rewrite bool_decide_eq_true_2 by done.
  rewrite bind_run. unfold path_exists.
  rewrite bool_decide_eq_true_2 by eauto.
  unfold os_remove. by rewrite Hr.
Qed.

(** The cleanup loop over distinct existing paths removes each of them and
    nothing else. *)
Lemma cleanup_run ps w :
  NoDup ps →
  Forall (λ p, p ≠ "" ∧ is_Some (files w !! p)) ps →
  ∃ w',
    for_ ps cleanup_body w = (Ok (), w')
    ∧ calls w' = calls w ++ (OsRemove <$> ps)
    ∧ ∀ q, files w' !! q = if decide (q ∈ ps) then None else files w !! q.
Proof.
  intros Hnd. revert w.
  induction Hnd as [|p ps Hp Hnd IH]; intros w Hall.
  - exists w. rewrite app_nil_r. split; [done|]. split; [done|].
    intros q. by rewrite decide_False by apply not_elem_of_nil.
  - apply Forall_cons in Hall as [[Hne Hex] Hall].
    destruct (IH (unlink p (log (OsRemove p) w))) as (w' & Hrun & Hcalls & Hfiles).
    { rewrite Forall_forall in Hall. apply Forall_forall.
      intros q Hq. destruct (Hall q Hq) as [? ?]. split; [done|].
      cbn [unlink log files]. rewrite lookup_delete_ne; [done|].
      by intros ->. }
    exists w'. rewrite for_cons, bind_run, cleanup_body_run by done.
    split; [done|]. split.
    + rewrite Hcalls. cbn [unlink log calls]. by rewrite <-(assoc_L (++)).
    + intros q. rewrite Hfiles. cbn [unlink log files].
      destruct (decide (q = p)) as [->|Hqp].
      * rewrite (decide_True (P := p ∈ p :: ps)) by by left.
        case_decide; [done|]. apply lookup_delete_eq.
      * rewrite lookup_delete_ne by done.
        destruct (decide (q ∈ ps)).
        -- by rewrite decide_True by by right.
        -- rewrite decide_False; [done|]. by intros [?|?]%elem_of_cons.
Qed.

Lemma tiles_nonempty_name fs p : p ∈ tiles fs → p ≠ "".
Proof. by intros [[n ->]%matches_DEM_pth_prefix _]%elem_of_tiles. Qed.


(** The second half of the cell, on tiles whose names contain no blank. *)
Lemma merge_part_run w :
  tiles (files w) ≠ [] →
  Forall (λ p, Py.contains " " p = false) (tiles (files w)) →
  ∃ w_mid w',
    gdal_merge "DEMs/DEM-Mosaic.tif" (tiles (files w)) w = (Ok (), w_mid)
    ∧ merge_part w = (Ok "DEMs/DEM-Mosaic.tif", w')
    ∧ calls w' = calls w ++ GdalMerge "DEMs/DEM-Mosaic.tif" (tiles (files w))
                            :: (OsRemove <$> tiles (files w))
    ∧ ∀ q, files w' !! q = if decide (q ∈ tiles (files w)) then None
                            else files w_mid !! q.
Proof.
  intros Hne Hblank.
  set (ps := tiles (files w)) in *.
  destruct ps as [|p ps'] eqn:Eps; [done|].
  assert (p ∈ tiles (files w)) as Hp by (fold ps; rewrite Eps; left).
  pose proof Hp as [[n ->]%matches_DEM_pth_prefix _]%elem_of_tiles.
  pose proof Hblank as [Hbp Hbps]%Forall_cons.
  set (joined := foldl (λ s pth, s +:+ " " +:+ pth) ("DEMs/" +:+ n) ps').
  assert (Py.split " " joined = ("DEMs/" +:+ n) :: ps') as Hsplit.
  { unfold joined. by rewrite split_join, split_absent. }
  assert (Py.index (Py.split "/" joined) 0 = Ok "DEMs") as Hproduct.
  { unfold joined. rewrite foldl_join_prefix.
    change ("DEMs/" +:+ ?s) with ("DEMs" +:+ String "/" s).
    by rewrite split_app. }
  assert (Forall (λ q, q ≠ "") (("DEMs/" +:+ n) :: ps')) as Hnames.
  { apply Forall_forall. intros q Hq. apply (tiles_nonempty_name (files w)).
    fold ps. by rewrite Eps. }
  assert (words joined = ("DEMs/" +:+ n) :: ps') as Hwords.
  { unfold words. rewrite Hsplit. by apply filter_all. }
  assert (∃ w_mid, gdal_merge "DEMs/DEM-Mosaic.tif" (("DEMs/" +:+ n) :: ps') w
                   = (Ok (), w_mid)
                   ∧ calls w_mid = calls w
                       ++ [GdalMerge "DEMs/DEM-Mosaic.tif" (("DEMs/" +:+ n) :: ps')]
                   ∧ ∀ q, is_Some (files w !! q) → is_Some (files w_mid !! q))
    as (w_mid & Hmerge & Hcalls_mid & Hkeep).
  { unfold gdal_merge.
    destruct (gdal_merge_succeeds _ _ _); [|by eauto].
    destruct (first_opened _ _); [|by eauto].
    eexists. split; [done|]. split; [done|].
    intros q Hq. cbn [write log files].
    rewrite lookup_insert. by case_decide. }
  destruct (cleanup_run (("DEMs/" +:+ n) :: ps') w_mid)
    as (w' & Hclean & Hcalls & Hfiles).
  { rewrite <-Eps. apply tiles_NoDup. }
  { apply Forall_forall. intros q Hq. split.
    - rewrite Forall_forall in Hnames. by apply Hnames.
    - apply Hkeep. assert (q ∈ tiles (files w)) as [_ ?]%elem_of_tiles; [|done].
      fold ps. by rewrite Eps. }
  exists w_mid, w'. split; [done|]. split; [|split; [|done]].
  - unfold merge_part.
    rewrite bind_run, get_DEM_paths_run, bind_run, get_DEM_paths_run.
    fold ps. rewrite Eps, join_paths_cons. fold joined.
    rewrite bind_run, eval_run. cbn [DEMin0_split].
    rewrite bind_run, eval_run, Hproduct.
    cbn [DEMin0_format]. rewrite Hwords.
    change ("DEMs" +:+ "/DEM-Mosaic.tif") with "DEMs/DEM-Mosaic.tif".
    rewrite bind_run, Hmerge, bind_run, eval_run, Hsplit.
    by rewrite bind_run, Hclean, ret_run.
  - rewrite Hcalls, Hcalls_mid. by rewrite <-(assoc_L (++)).
Qed.


(** The cleanup loop runs whatever the outcome of the merge: when the merge
    fails, the tiles are removed all the same and nothing is written. *)
Lemma merge_failure_removes_tiles w :
  tiles (files w) ≠ [] →
  Forall (λ p, Py.contains " " p = false) (tiles (files w)) →
  gdal_merge_succeeds (files w) "DEMs/DEM-Mosaic.tif" (tiles (files w)) = false →
  ∃ w',
    merge_part w = (Ok "DEMs/DEM-Mosaic.tif", w')
    ∧ ∀ q, files w' !! q = if decide (q ∈ tiles (files w)) then None
                            else files w !! q.
Proof.
  intros Hne Hblank Hfail.
  destruct (merge_part_run w Hne Hblank) as (w_mid & w' & Hmerge & Hrun & _ & Hfiles).
  exists w'. split; [done|]. intros q. rewrite Hfiles.
  unfold gdal_merge in Hmerge. rewrite Hfail in Hmerge.
  by injection Hmerge as <-.
Qed.

End MergeFacts.

(** ** The claims on the end-to-end scenario *)








(** The scenario from discovery to cleanup: [t1.tif] is reprojected to
    [rt1.tif] and removed, the three rasters are merged and removed, and the
    mosaic is the one file left. *)
Example scenario_end_to_end :
  ∃ w',
    (z ← @identify_cell (fixed_tools true true);
     @mosaic_cell (fixed_tools true true) z) (World scenario [])
    = (Ok "DEMs/DEM-Mosaic.tif", w')
    ∧ files w' = {[ "DEMs/DEM-Mosaic.tif" := Raster "EPSG" "32645" ]}
    ∧ calls w' =
        [Gdalwarp "DEMs/t1.tif" "DEMs/rt1.tif" ("EPSG", "32644")
           ("EPSG", "32645");
         Rm "DEMs/t1.tif";
         GdalMerge "DEMs/DEM-Mosaic.tif"
           ["DEMs/rt1.tif"; "DEMs/t3.tif"; "DEMs/t2.tif"];
         OsRemove "DEMs/rt1.tif"; OsRemove "DEMs/t3.tif";
         OsRemove "DEMs/t2.tif"].
Proof. eexists. split; [by vm_compute|]. split; by vm_compute. Qed.

(** * Further properties of the notebook's cells *)

(** ** [strip] keeps the number of pieces *)

Section StripFacts.

Implicit Types (s a b acc : string) (sep c : ascii).






End StripFacts.

(** ** The first cell: what it binds *)

Section IdentifyFacts.

Context `{Tools}.

Implicit Types (w : world) (z : zones) (k : nat).


(** *** The loop on what the first cell binds *)




End IdentifyFacts.

(** ** Joining the paths and splitting them again *)

Lemma split_pieces_free (sep : ascii) (s : string) :
  Forall (λ piece, Py.contains sep piece = false) (Py.split sep s).
Proof.
  induction s as [|c s IH]; simpl.
  - by repeat constructor.
  - destruct (decide (c = sep)) as [->|Hne]; [by constructor|].
    destruct (Py.split sep s) as [|piece pieces].
    + repeat constructor. simpl. by rewrite bool_decide_eq_false_2.
    + apply Forall_cons in IH as [Hpiece Hpieces].
      constructor; [|done]. simpl. by rewrite bool_decide_eq_false_2.
Qed.

(** X3.  [DEMin[0].split(' ')] gives back the list of paths that the
    joining loop was given exactly when that list is not empty and no path
    in it contains a blank. *)
Theorem join_split_round_trip (d_paths : list string) :
  DEMin0_split " " (join_paths d_paths) = Ok d_paths
  ↔ d_paths ≠ [] ∧ Forall (λ p, Py.contains " " p = false) d_paths.
Proof.
  destruct d_paths as [|p ps]; [by split; [|intros [? _]]|].
  rewrite join_paths_cons. cbn [DEMin0_split]. split.
  - intros [= E]. split; [done|]. rewrite <-E. apply split_pieces_free.
  - intros [_ [Hp Hps]%Forall_cons]. by rewrite split_join, split_absent.
Qed.

(** ** The cleanup loop *)

Section CleanupFacts.

Context `{Tools}.

Implicit Types (w : world) (p q : string) (ps : list string).




End CleanupFacts.

(** ** The merge part: outcomes *)


Section MergeOutcomes.

Context `{Tools}.

Implicit Types (w : world) (p q : string) (ps : list string).






End MergeOutcomes.

(** ** The selection and the indices to reproject *)

(** X8.  A code that occurs strictly more often than every other code is
    the one returned, wherever it stands in the list and however it
    compares with the other codes. *)
Theorem strict_plurality_selected (utm_zones : list string) (u : string) :
  (∀ v, v ≠ u → Np.count v utm_zones < Np.count u utm_zones) →
  predominant_utm utm_zones = Ok u.
Proof.
  intros Hmore.
  assert (∀ v, Np.count v utm_zones ≤ Np.count u utm_zones) as Hmax.
  { intros v. destruct (decide (v = u)) as [->|Hv]; [done|].
    specialize (Hmore v Hv). lia. }
  apply predominant_utm_unique.
  - apply count_pos. specialize (Hmore (String "x" u)).
    assert (String "x" u ≠ u) as Hne.
    { intros E. apply (f_equal String.length) in E. simpl in E. lia. }
    specialize (Hmore Hne). lia.
  - done.
  - intros v Hv. destruct (decide (v = u)) as [->|Hne]; [done|].
    specialize (Hmore v Hne). lia.
Qed.

Lemma strict_plurality_selected_witness :
  (∀ v, v ≠ "32645" →
        Np.count v ["32644"; "32645"; "32645"]
        < Np.count "32645" ["32644"; "32645"; "32645"])
  ∧ predominant_utm ["32644"; "32645"; "32645"] = Ok "32645".
Proof.
  assert (∀ v, v ≠ "32645" →
               Np.count v ["32644"; "32645"; "32645"]
               < Np.count "32645" ["32644"; "32645"; "32645"]) as Hmore.
  { intros v Hv. rewrite !count_cons, count_nil.
    repeat case_decide; simplify_eq; lia. }
  split; [exact Hmore|].
  exact (strict_plurality_selected _ _ Hmore).
Defined.

Lemma indices_ne_from_sorted (i : nat) (seq : list string) (x : string) :
  StronglySorted lt (Py.indices_ne_from i seq x)
  ∧ Forall (λ k, i ≤ k) (Py.indices_ne_from i seq x).
Proof.
  revert i. induction seq as [|c seq IH]; intros i; simpl.
  - split; constructor.
  - destruct (IH (S i)) as [Hs Hle].
    assert (Forall (λ k, i < k) (Py.indices_ne_from (S i) seq x)) as Hlt.
    { eapply Forall_impl; [exact Hle|]. simpl. lia. }
    destruct (decide (c ≠ x)).
    + split; [by constructor|].
      constructor; [done|]. eapply Forall_impl; [exact Hlt|]. simpl. lia.
    + split; [done|]. eapply Forall_impl; [exact Hlt|]. simpl. lia.
Qed.

Lemma indices_ne_from_length (i : nat) (seq : list string) (x : string) :
  length (Py.indices_ne_from i seq x) + Np.count x seq = length seq.
Proof.
  revert i. induction seq as [|c seq IH]; intros i; [done|].
  cbn [Py.indices_ne_from]. rewrite count_cons. specialize (IH (S i)).
  destruct (decide (c ≠ x)) as [Hc|Hc%dec_stable].
  - rewrite decide_False by congruence. simpl. lia.
  - rewrite decide_True by done. simpl. lia.
Qed.

(** X9.  [reproject_indicies] lists, in increasing order, exactly the
    indices whose code differs from the target; its length and the number
    of tiles bearing the target code add up to the number of tiles.  With
    the predominant code as target, at least one tile is left alone, and
    no other target would leave fewer tiles to reproject. *)
Theorem reproject_indicies_minimal (utm_zones : list string) (code : string) :
  StronglySorted lt (reproject_indicies utm_zones code)
  ∧ (∀ k, k ∈ reproject_indicies utm_zones code ↔
          ∃ c, utm_zones !! k = Some c ∧ c ≠ code)
  ∧ length (reproject_indicies utm_zones code) + Np.count code utm_zones
    = length utm_zones
  ∧ (predominant_utm utm_zones = Ok code →
     length (reproject_indicies utm_zones code) < length utm_zones
     ∧ ∀ other,
         length (reproject_indicies utm_zones code)
         ≤ length (reproject_indicies utm_zones other)).
Proof.
  unfold reproject_indicies.
  split; [apply indices_ne_from_sorted|].
  split; [apply elem_of_reproject_indicies|].
  split; [apply indices_ne_from_length|].
  intros Hsel.
  destruct utm_zones as [|c0 zs]; [done|].
  destruct (predominant_utm_spec (c0 :: zs)) as (u & Hu & Hin & Hmax & _);
    [done|].
  rewrite Hsel in Hu. injection Hu as <-.
  apply count_pos in Hin.
  pose proof (indices_ne_from_length 0 (c0 :: zs) code).
  split; [lia|]. intros other.
  pose proof (indices_ne_from_length 0 (c0 :: zs) other).
  specialize (Hmax other). lia.
Qed.

(** ** [get_DEM_dates]: which field it reads, and when it raises *)

Section DateFacts.

Implicit Types (s a b pth : string) (sep : ascii).

Lemma contains_app sep a b :
  Py.contains sep (a +:+ b) = Py.contains sep a || Py.contains sep b.
Proof.
  induction a as [|c a IH]; [done|].
  rewrite append_cons. simpl. by rewrite IH, orb_assoc.
Qed.

(** The last piece of [dir/name] is [name]. *)
Lemma split_last_name (dir name : string) :
  Py.contains "/" name = false →
  Py.index_last (Py.split "/" (dir +:+ "/" +:+ name)) = Ok name.
Proof.
  intros Hname. change ("/" +:+ name) with (String "/" name).
  rewrite split_app, (split_absent _ name) by done.
  unfold Py.index_last. by rewrite last_app_cons.
Qed.

(** The first piece of [a sep b] is [a]. *)
Lemma split_head sep a b :
  Py.contains sep a = false →
  Py.split sep (a +:+ String sep b) = a :: Py.split sep b.
Proof. intros Ha. by rewrite split_app, split_absent. Qed.

Lemma date_of_outcome pth :
  match date_of pth with
  | Ok date =>
      ∃ name, Py.index_last (Py.split "/" pth) = Ok name
              ∧ 4 ≤ length (Py.split "_" name)
  | Raise e =>
      e = IndexError
      ∧ ∃ name, Py.index_last (Py.split "/" pth) = Ok name
                ∧ length (Py.split "_" name) < 4
  end.
Proof.
  unfold date_of, Py.index_last.
  pose proof (split_nonempty "/" pth) as Hne.
  destruct (last (Py.split "/" pth)) as [name|] eqn:Hlast.
  2: { apply last_None in Hlast. done. }
  cbn [rbind]. unfold Py.index at 1.
  destruct (Py.split "_" name !! 3) as [stamp|] eqn:Hstamp; cbn [rbind].
  - apply lookup_lt_Some in Hstamp.
    pose proof (split_nonempty "T" stamp).
    unfold Py.index. destruct (Py.split "T" stamp) as [|d ds]; [done|].
    simpl. exists name. split; [done|lia].
  - apply lookup_ge_None in Hstamp. split; [done|].
    exists name. split; [done|lia].
Qed.

(** X10.  [get_DEM_dates] raises exactly when [tiff_paths] is unbound
    ([NameError]) or some path in it has a file name with fewer than four
    pieces between underscores ([IndexError]); otherwise it returns one date
    per path of [tiff_paths], each free of [T]. *)
Theorem get_DEM_dates_outcome (tiff_paths : option (list string))
  (paths : list string) :
  match get_DEM_dates tiff_paths paths with
  | Ok dates =>
      ∃ tps, tiff_paths = Some tps
             ∧ length dates = length tps
             ∧ Forall (λ pth, ∃ name,
                          Py.index_last (Py.split "/" pth) = Ok name
                          ∧ 4 ≤ length (Py.split "_" name)) tps
             ∧ Forall (λ date, Py.contains "T" date = false) dates
  | Raise e =>
      (e = NameError ∧ tiff_paths = None)
      ∨ (e = IndexError
         ∧ ∃ tps, tiff_paths = Some tps
                  ∧ Exists (λ pth, ∃ name,
                               Py.index_last (Py.split "/" pth) = Ok name
                               ∧ length (Py.split "_" name) < 4) tps)
  end.
Proof.
  destruct tiff_paths as [tps|]; [|by left].
  cbn [get_DEM_dates].
  assert (∀ acc,
    match foldl (λ dates pth,
                   rbind dates (λ dates,
                   rbind (date_of pth) (λ date, Ok (dates ++ [date]))))
                (Ok acc) tps with
    | Ok dates =>
        ∃ new, dates = acc ++ new ∧ length new = length tps
          ∧ Forall (λ pth, ∃ name,
                      Py.index_last (Py.split "/" pth) = Ok name
                      ∧ 4 ≤ length (Py.split "_" name)) tps
          ∧ Forall (λ date, Py.contains "T" date = false) new
    | Raise e =>
        e = IndexError
        ∧ Exists (λ pth, ∃ name,
                    Py.index_last (Py.split "/" pth) = Ok name
                    ∧ length (Py.split "_" name) < 4) tps
    end) as Hgen.
  { induction tps as [|pth tps IH]; intros acc; cbn [foldl].
    - exists []. by rewrite app_nil_r.
    - cbn [rbind]. pose proof (date_of_outcome pth) as Hpth.
      destruct (date_of pth) as [date|e] eqn:Hdate; cbn [rbind].
      + specialize (IH (acc ++ [date])).
        destruct (foldl _ _ tps) as [dates|e].
        * destruct IH as (new & -> & Hlen & Hall & Hfree).
          exists (date :: new). rewrite <-(assoc_L (++)).
          split; [done|]. split; [simpl; lia|]. split; [by constructor|].
          constructor; [|done].
          unfold date_of in Hdate.
          destruct (Py.index_last _) as [name|]; [|done]. cbn [rbind] in Hdate.
          destruct (Py.index (Py.split "_" name) 3) as [stamp|]; [|done].
          cbn [rbind] in Hdate. unfold Py.index in Hdate.
          pose proof (split_pieces_free "T" stamp) as Hfreepieces.
          destruct (Py.split "T" stamp) as [|d ds]; [done|].
          simpl in Hdate. injection Hdate as ->.
          by apply Forall_cons in Hfreepieces as [? _].
        * destruct IH as [-> Hex]. split; [done|]. by right.
      + destruct Hpth as [-> Hname].
        assert (foldl (λ dates pth0,
                         rbind dates (λ dates0,
                         rbind (date_of pth0) (λ date, Ok (dates0 ++ [date]))))
                      (Raise IndexError) tps = Raise IndexError) as ->.
        { clear. induction tps as [|p tps IH]; [done|]. cbn [foldl rbind]. apply IH. }
        split; [done|]. by left. }
  specialize (Hgen []).
  destruct (foldl _ _ tps) as [dates|e].
  - destruct Hgen as (new & -> & ? & ? & ?). exists tps. by rewrite app_nil_l.
  - destruct Hgen as [-> ?]. right. split; [done|]. eauto.
Qed.

(** X11.  The date that [get_DEM_dates] reads off a path is the text of the
    fourth underscore-separated field of the file name, up to its first
    [T]. *)
Theorem date_of_fourth_field (dir f0 f1 f2 date rest : string) :
  Py.contains "/" f0 = false → Py.contains "_" f0 = false →
  Py.contains "/" f1 = false → Py.contains "_" f1 = false →
  Py.contains "/" f2 = false → Py.contains "_" f2 = false →
  Py.contains "/" date = false → Py.contains "_" date = false →
  Py.contains "T" date = false →
  Py.contains "/" rest = false →
  date_of (dir +:+ "/" +:+ f0 +:+ "_" +:+ f1 +:+ "_" +:+ f2 +:+ "_"
           +:+ date +:+ "T" +:+ rest) = Ok date.
Proof.
  intros H0 H0' H1 H1' H2 H2' Hd Hd' HdT Hr.
  unfold date_of. rewrite split_last_name.
  2: { rewrite !contains_app, H0, H1, H2, Hd, Hr. done. }
  cbn [rbind].
  change ("T" +:+ rest) with (String "T" rest).
  repeat match goal with
         | |- context [ "_" +:+ ?s ] => change ("_" +:+ s) with (String "_" s)
         end.
  rewrite !split_head by done.
  pose proof (split_nonempty "_" (date +:+ String "T" rest)) as Hne.
  destruct (Py.split "_" (date +:+ String "T" rest)) as [|stamp more] eqn:E;
    [done|].
  cbn [Py.index lookup list_lookup rbind].
  assert (∃ tail, stamp = date +:+ String "T" tail) as [tail ->].
  { clear -E Hd'. revert stamp more E.
    induction date as [|c date IH]; intros stamp more E.
    - rewrite append_nil_l in E. simpl in E.
      pose proof (split_nonempty "_" rest).
      destruct (Py.split "_" rest) as [|p ps]; [done|].
      injection E as <- _. by exists p.
    - simpl in Hd'. apply orb_false_iff in Hd' as [Hc Hd'].
      apply bool_decide_eq_false in Hc.
      rewrite append_cons in E. simpl in E.
      rewrite decide_False in E by done.
      pose proof (split_nonempty "_" (date +:+ String "T" rest)).
      destruct (Py.split "_" (date +:+ String "T" rest)) as [|p ps] eqn:E';
        [done|].
      injection E as <- <-.
      destruct (IH Hd' p ps eq_refl) as [tail ->]. by exists tail. }
  by rewrite split_head.
Qed.

Lemma date_of_fourth_field_witness :
  date_of ("rtc_products/S1A_IW_RT30_20200101T010203_G_gpn_VV.tif")
  = Ok "20200101".
Proof.
  apply (date_of_fourth_field "rtc_products" "S1A" "IW" "RT30" "20200101"
           "010203_G_gpn_VV.tif"); reflexivity.
Defined.

End DateFacts.

(** ** Discovery: which paths count as tiles *)

Lemma fnmatch_star (pat name : string) :
  Glob.fnmatch (String "*" pat) name = true
  ↔ ∃ a b, name = a +:+ b ∧ Glob.fnmatch pat b = true.
Proof.
  induction name as [|c name IH].
  - cbn. rewrite orb_false_r. split.
    + intros Hm. by exists "", "".
    + intros (a & b & E & Hm). destruct a; [|done].
      rewrite append_nil_l in E. by subst b.
  - change (Glob.fnmatch (String "*" pat) (String c name))
      with (Glob.fnmatch pat (String c name)
            || Glob.fnmatch (String "*" pat) name).
    rewrite orb_true_iff, IH. split.
    + intros [Hm|(a & b & -> & Hm)].
      * by exists "", (String c name).
      * exists (String c a), b. by rewrite append_cons.
    + intros ([|c' a] & b & E & Hm).
      * rewrite append_nil_l in E. subst b. by left.
      * rewrite append_cons in E. injection E as -> ->. right. eauto.
Qed.

Lemma fnmatch_star_any (name : string) : Glob.fnmatch "*" name = true.
Proof.
  apply fnmatch_star. exists name, "".
  split; [|done]. induction name as [|c name IH]; [done|].
  by rewrite append_cons, <-IH.
Qed.

Lemma fnmatch_tif (name : string) :
  Glob.fnmatch "*.tif*" name = true ↔ ∃ a b, name = a +:+ ".tif" +:+ b.
Proof.
  rewrite fnmatch_star. split.
  - intros (a & b & -> & Hm). exists a.
    destruct b as [|c1 [|c2 [|c3 [|c4 b]]]]; try done;
      cbn in Hm; repeat (case_bool_decide; simplify_eq/=); try done.
    by exists b.
  - intros (a & b & ->). exists a, (".tif" +:+ b). split; [done|].
    cbn. apply fnmatch_star_any.
Qed.

(** The paths that [DEMs/*.tif*] matches. *)
Lemma matches_DEM_pth_iff (p : string) :
  Glob.matches DEM_pth p
  ↔ ∃ a b, p = "DEMs/" +:+ a +:+ ".tif" +:+ b
           ∧ Py.contains "/" a = false ∧ Py.contains "/" b = false
           ∧ Glob.hidden (a +:+ ".tif" +:+ b) = false.
Proof.
  split.
  - intros Hm. pose proof Hm as [name Hsplit]%matches_DEM_pth.
    pose proof (split_pieces_free "/" p) as Hfree.
    rewrite Hsplit in Hfree.
    apply Forall_cons in Hfree as [_ [Hname _]%Forall_cons].
    unfold Glob.matches in Hm. rewrite Hsplit in Hm.
    change (Py.split "/" DEM_pth) with ["DEMs"; "*.tif*"] in Hm.
    cbn [Glob.components_match] in Hm.
    apply andb_prop_elim in Hm as [_ [Hc _]%andb_prop_elim].
    unfold Glob.component_match in Hc.
    apply andb_prop_elim in Hc as [Hfn Hhid].
    apply Is_true_true, fnmatch_tif in Hfn as (a & b & ->).
    exists a, b. apply split_pair in Hsplit.
    rewrite !contains_app in Hname.
    apply orb_false_iff in Hname as [Ha [_ Hb]%orb_false_iff].
    split; [done|]. split; [done|]. split; [done|].
    change (Glob.hidden "*.tif*") with false in Hhid.
    rewrite orb_false_r in Hhid. by destruct (Glob.hidden _).
  - intros (a & b & -> & Ha & Hb & Hhid).
    unfold Glob.matches.
    change (Py.split "/" DEM_pth) with ["DEMs"; "*.tif*"].
    change ("DEMs/" +:+ ?s) with ("DEMs" +:+ String "/" s).
    rewrite split_head by done.
    rewrite split_absent by (by rewrite !contains_app, Ha, Hb).
    cbn [Glob.components_match]. unfold Glob.component_match at 2.
    rewrite Hhid. replace (Glob.fnmatch "*.tif*" _) with true.
    + done.
    + symmetry. apply fnmatch_tif. eauto.
Qed.

Section DiscoveryFacts.

Context `{Tools}.

(** X12.  [get_DEM_paths(DEM_pth)] changes nothing and returns, each once,
    exactly the existing paths [DEMs/<a>.tif<b>] with no further slash and
    no leading dot in the file name.  A mosaic left at
    [DEMs/DEM-Mosaic.tif] therefore counts as a tile, and so does a sidecar
    file such as [DEMs/t1.tif.aux.xml]. *)
Theorem get_DEM_paths_exactly (w : world) :
  ∃ found,
    get_DEM_paths DEM_pth w = (Ok found, w)
    ∧ NoDup found
    ∧ (∀ p, p ∈ found ↔
            is_Some (files w !! p)
            ∧ ∃ a b, p = "DEMs/" +:+ a +:+ ".tif" +:+ b
                     ∧ Py.contains "/" a = false
                     ∧ Py.contains "/" b = false
                     ∧ Glob.hidden (a +:+ ".tif" +:+ b) = false)
    ∧ (is_Some (files w !! "DEMs/DEM-Mosaic.tif") →
       "DEMs/DEM-Mosaic.tif" ∈ found)
    ∧ (is_Some (files w !! "DEMs/t1.tif.aux.xml") →
       "DEMs/t1.tif.aux.xml" ∈ found).
Proof.
  exists (tiles (files w)). split; [apply get_DEM_paths_run|].
  split; [apply tiles_NoDup|]. split; [|split].
  - intros p. rewrite elem_of_tiles, matches_DEM_pth_iff. naive_solver.
  - intros Hex. by apply elem_of_tiles.
  - intros Hex. by apply elem_of_tiles.
Qed.

End DiscoveryFacts.

(** ** From discovery to the mosaic *)

Section EndToEnd.

Context `{Tools}.

Implicit Types (w : world) (z : zones) (p q x : string).






End EndToEnd.

(** ** From the collecting cell to discovery *)

Section CollectFacts.

Implicit Types (s a b acc name : string).

Lemma rev_app_append a b acc :
  String.rev_app (a +:+ b) acc = String.rev_app b (String.rev_app a acc).
Proof.
  revert acc. induction a as [|c a IH]; intros acc; [done|].
  rewrite append_cons. simpl. apply IH.
Qed.

Lemma rev_app_rev s acc : String.rev_app s acc = String.rev s +:+ acc.
Proof.
  unfold String.rev. revert acc. induction s as [|c s IH]; intros acc; [done|].
  simpl. rewrite (IH (String c acc)), (IH (String c "")).
  by rewrite append_assoc.
Qed.

Lemma string_rev_append a b : String.rev (a +:+ b) = String.rev b +:+ String.rev a.
Proof. unfold String.rev at 1. by rewrite rev_app_append, rev_app_rev. Qed.

Lemma rev_app_involutive s acc t :
  String.rev_app (String.rev_app s acc) t = String.rev_app acc (s +:+ t).
Proof.
  revert acc t. induction s as [|c s IH]; intros acc t; [done|].
  simpl. by rewrite IH.
Qed.

Lemma string_rev_involutive s : String.rev (String.rev s) = s.
Proof.
  unfold String.rev. rewrite rev_app_involutive. simpl.
  induction s as [|c s IH]; [done|]. by rewrite append_cons, IH.
Qed.

(** [strip] changes no string that begins and ends with something else
    than white space. *)
Lemma strip_fixed s :
  Py.lstrip s = s → Py.lstrip (String.rev s) = String.rev s → Py.strip s = s.
Proof.
  intros Hl Hr. unfold Py.strip, Py.rstrip.
  by rewrite Hl, Hr, string_rev_involutive.
Qed.

(** X14.  Every file that the collecting cell copies is a tile for the
    cells after it: a name that the shell pattern [*dem.tif] matches gives
    a path in [DEMs] that [DEMs/*.tif*] matches, that [strip()] leaves as
    it is, and that [split('/')] takes apart into the folder and that
    name. *)
Theorem collected_dem_is_tile name :
  Glob.component_match dem_name_pattern name = true →
  Py.contains "/" name = false →
  Glob.matches DEM_pth (collected name)
  ∧ Py.strip (collected name) = collected name
  ∧ Py.split "/" (collected name) = ["DEMs"; name]
  ∧ Py.contains " " (collected name) = Py.contains " " name.
Proof.
  unfold Glob.component_match, dem_name_pattern, collected.
  intros [Hm Hhid]%andb_true_iff Hslash.
  rewrite orb_false_r in Hhid. apply negb_true_iff in Hhid.
  apply fnmatch_star in Hm as (a & b & -> & Hb).
  apply fnmatch_plain in Hb as ->; [|done].
  assert (Py.contains "/" a = false) as Ha.
  { rewrite contains_app in Hslash. by apply orb_false_iff in Hslash as [? _]. }
  split; [|split; [|split]].
  - apply matches_DEM_pth_iff. exists (a +:+ "dem"), "".
    rewrite !append_assoc. split; [done|].
    split; [by rewrite contains_app, Ha|]. by split.
  - apply strip_fixed; [done|].
    by rewrite !string_rev_append.
  - change ("DEMs/" +:+ a +:+ "dem.tif")
      with ("DEMs" +:+ String "/" (a +:+ "dem.tif")).
    rewrite split_app. by rewrite (split_absent _ (a +:+ _)) by done.
  - by rewrite contains_app.
Qed.

End CollectFacts.

(** ** The invocations of the reprojection loop *)

Section LoopLog.

Context `{Tools}.

Implicit Types (w : world) (z : zones) (ks : list nat).



End LoopLog.

(** ** The scenarios of the design document, run through the results above *)




Lemma collected_dem_is_tile_witness :
  Glob.component_match dem_name_pattern "S1A_IW_20200101T000000_dem.tif" = true
  ∧ Py.contains "/" "S1A_IW_20200101T000000_dem.tif" = false
  ∧ Glob.matches DEM_pth (collected "S1A_IW_20200101T000000_dem.tif")
  ∧ Py.split "/" (collected "S1A_IW_20200101T000000_dem.tif")
    = ["DEMs"; "S1A_IW_20200101T000000_dem.tif"].
Proof.
  split; [done|]. split; [done|].
  destruct (collected_dem_is_tile "S1A_IW_20200101T000000_dem.tif")
    as (Hm & _ & Hsplit & _); [done..|].
  by split.
Defined.

